(** * Bucket lifecycle reconciliation of the S3 broker ([awss3/s3_bucket.go])

    A shallow embedding of [S3Bucket]: [Describe], [Create], [Modify],
    [Delete] and their helpers, run against an arbitrary implementation of
    the [S3Client] interface.  Every call made on the client, and every
    [time.Sleep], is recorded in a trace, so that statements about which
    calls are issued, and how often, can be made for every backend.  The
    calls on the logger are left out: no result depends on them. *)

From Stdlib Require Import Ascii String.
From stdpp Require Import base strings list gmap pretty.
From Equations Require Import Equations.

Set Default Proof Using "Type".

(** ** Errors

    The Go [error] values the code distinguishes by type assertion:
    - [err.(awserr.Error)] succeeds on [AwsError] and on [BatchError];
    - the assertion of [awsErr] to a pointer to [s3manager.BatchError]
      succeeds on [BatchError] only, whose [OrigErr()] is its [Errors] slice
      (an [s3manager.Errors]);
    - every other error value is a [PlainError]. *)

Record s3manager_Error (E : Type) : Type := mkS3ManagerError {
  OrigErr : option E;
  ErrBucket : option string;
  ErrKey : option string;
}.
Arguments mkS3ManagerError {E} _ _ _.
Arguments OrigErr {E} _.
Arguments ErrBucket {E} _.
Arguments ErrKey {E} _.

#[warnings="-register-all"]
Inductive error : Type :=
| PlainError (msg : string)
| AwsError (code message : string)
| BatchError (code message : string) (Errors : list (s3manager_Error error)).

(** [err.(awserr.Error)] followed by [Code()] and [Message()]. *)
Definition as_awserr (err : error) : option (string * string) :=
  match err with
  | PlainError _ => None
  | AwsError code message => Some (code, message)
  | BatchError code message _ => Some (code, message)
  end.

(** The result of a Go function that may panic at run time. *)
Inductive outcome (A : Type) : Type :=
| Returns (a : A)
| Panics (reason : string).
Arguments Returns {A} _.
Arguments Panics {A} _.

(** ** Data model *)

(** Modelled from the spec: the struct [BucketDetails] is declared in another
    file of package [awss3]; its fields are those of the data model, all
    strings except [Tags], a map from string to string. *)
Record BucketDetails : Type := mkBucketDetails {
  BucketName : string;
  Region : string;
  ARN : string;
  FIPSEndpoint : string;
  Tags : gmap string string;
  Encryption : string;
  Policy : string;
  ObjectOwnership : string;
}.

(** The zero value [BucketDetails{}]. *)
Definition BucketDetails_zero : BucketDetails :=
  mkBucketDetails "" "" "" "" ∅ "" "" "".

Definition with_BucketName (bucketName : string) (d : BucketDetails) : BucketDetails :=
  mkBucketDetails bucketName (Region d) (ARN d) (FIPSEndpoint d) (Tags d)
                  (Encryption d) (Policy d) (ObjectOwnership d).

Record bucketPolicyStatement : Type := mkStatement {
  Effect : string;
  Principal : string;
  Action : list string;
  Resource : list string;
}.

Record bucketPolicy : Type := mkPolicy {
  Version : string;
  Statement : list bucketPolicyStatement;
}.

(** ** Library functions the code calls

    [encoding/json] and [text/template] belong to the Go standard library,
    and [s3.ServerSideEncryptionConfiguration] to the AWS SDK.  They are
    parameters of the development. *)
Class GoLibs : Type := {
  ServerSideEncryptionConfiguration : Type;
  Template : Type;
  json_Unmarshal_encryption : string → error + ServerSideEncryptionConfiguration;
  json_Unmarshal_policy : string → error + bucketPolicy;
  template_Parse : string → error + Template;
  template_Execute : Template → BucketDetails → error + string;
}.

(** The empty input is not a JSON document: [json.Unmarshal] fails on it. *)
Class GoLibsLaws (L : GoLibs) : Prop := {
  json_Unmarshal_empty : ∀ p, json_Unmarshal_policy "" ≠ inr p;
}.

(** ** The backend interface

    [S3Client] is the Go interface of the same name: one method per
    operation, here a function of the backend state [B].  A method returns
    either an error or its output (of which only the fields the code reads
    are kept): the location constraint of [GetBucketLocation] and the
    location of [CreateBucket] are [*string], [None] being [nil].
    [deleteBucketContents] asserts the client to be the concrete client of
    the SDK, a pointer to [s3.S3]: [is_s3_S3] tells whether the assertion
    holds of this client, and [BatchDelete] stands for
    [s3manager.NewBatchDeleteWithClient(c).Delete(ctx, NewDeleteListIterator(c, input))]
    on the asserted client [c], which lists the objects of the bucket and
    deletes them in batches.  It is run on no other client. *)
Class S3Client {L : GoLibs} (B : Type) : Type := {
  is_s3_S3 : bool;
  GetBucketLocation : string → B → (error + option string) * B;
  CreateBucket : string → string → B → (error + option string) * B;
  PutBucketTagging : string → list (string * string) → B → option error * B;
  PutBucketEncryption : string → ServerSideEncryptionConfiguration → B → option error * B;
  PutBucketPolicy : string → string → B → option error * B;
  DeletePublicAccessBlock : string → B → option error * B;
  DeleteBucket : string → B → option error * B;
  GetPublicAccessBlock : string → B → option error * B;
  BatchDelete : string → B → option error * B;
}.

(** What the code does to the outside world, in order. *)
Inductive event {L : GoLibs} : Type :=
| EvGetBucketLocation (bucket : string)
| EvCreateBucket (bucket objectOwnership : string)
| EvPutBucketTagging (bucket : string) (tagSet : list (string * string))
| EvPutBucketEncryption (bucket : string) (config : ServerSideEncryptionConfiguration)
| EvPutBucketPolicy (bucket policy : string)
| EvDeletePublicAccessBlock (bucket : string)
| EvDeleteBucket (bucket : string)
| EvGetPublicAccessBlock (bucket : string)
| EvBatchDelete (bucket : string)
| EvSleep (seconds : nat).

Section Events.
Context {L : GoLibs}.

Definition is_CreateBucket (e : event) : bool :=
  match e with EvCreateBucket _ _ => true | _ => false end.
Definition is_PutBucketTagging (e : event) : bool :=
  match e with EvPutBucketTagging _ _ => true | _ => false end.
Definition is_PutBucketEncryption (e : event) : bool :=
  match e with EvPutBucketEncryption _ _ => true | _ => false end.
Definition is_PutBucketPolicy (e : event) : bool :=
  match e with EvPutBucketPolicy _ _ => true | _ => false end.
Definition is_DeletePublicAccessBlock (e : event) : bool :=
  match e with EvDeletePublicAccessBlock _ => true | _ => false end.
Definition is_GetPublicAccessBlock (e : event) : bool :=
  match e with EvGetPublicAccessBlock _ => true | _ => false end.
Definition is_Sleep (e : event) : bool :=
  match e with EvSleep _ => true | _ => false end.

(** How many events of a trace satisfy [p]. *)
Definition count (p : event → bool) (t : list event) : nat :=
  length (filter (λ e, p e = true) t).
End Events.

(** ** Computations against a backend *)

Section Bucket.
Context {L : GoLibs} {B : Type} {Client : S3Client B}.

(** A computation starts in a backend state and yields its value, the
    backend state it leaves and the events it emitted, oldest first. *)
Definition M (A : Type) : Type := B → A * B * list event.

Definition value {A} (r : A * B * list event) : A := r.1.1.
Definition final {A} (r : A * B * list event) : B := r.1.2.
Definition events {A} (r : A * B * list event) : list event := r.2.

(** [r], with the events [t] emitted before it. *)
Definition preceded_by {A} (t : list event) (r : A * B * list event) : A * B * list event :=
  (r.1, t ++ r.2).

#[global] Instance M_ret : MRet M := λ A a b, (a, b, []).
#[global] Instance M_bind : MBind M :=
  λ A C k m b, let '(a, b', t) := m b in preceded_by t (k a b').

(** A call on [s.s3svc]: run the method on the backend state and record
    the call. *)
Definition invoke {R} (e : event) (method : B → R * B) : M R :=
  λ b, (method b, [e]).

Definition time_Sleep (seconds : nat) : M unit :=
  λ b, (tt, b, [EvSleep seconds]).

Definition s3svc_GetBucketLocation (bucket : string) : M (error + option string) :=
  invoke (EvGetBucketLocation bucket) (GetBucketLocation bucket).
Definition s3svc_CreateBucket (bucket ownership : string) : M (error + option string) :=
  invoke (EvCreateBucket bucket ownership) (CreateBucket bucket ownership).
Definition s3svc_PutBucketTagging (bucket : string) (tagSet : list (string * string)) : M (option error) :=
  invoke (EvPutBucketTagging bucket tagSet) (PutBucketTagging bucket tagSet).
Definition s3svc_PutBucketEncryption (bucket : string) (c : ServerSideEncryptionConfiguration) : M (option error) :=
  invoke (EvPutBucketEncryption bucket c) (PutBucketEncryption bucket c).
Definition s3svc_PutBucketPolicy (bucket policy : string) : M (option error) :=
  invoke (EvPutBucketPolicy bucket policy) (PutBucketPolicy bucket policy).
Definition s3svc_DeletePublicAccessBlock (bucket : string) : M (option error) :=
  invoke (EvDeletePublicAccessBlock bucket) (DeletePublicAccessBlock bucket).
Definition s3svc_DeleteBucket (bucket : string) : M (option error) :=
  invoke (EvDeleteBucket bucket) (DeleteBucket bucket).
Definition s3svc_GetPublicAccessBlock (bucket : string) : M (option error) :=
  invoke (EvGetPublicAccessBlock bucket) (GetPublicAccessBlock bucket).
Definition s3manager_BatchDelete (bucket : string) : M (option error) :=
  invoke (EvBatchDelete bucket) (BatchDelete bucket).

(** A new plain error made of code, colon, space and message for an
    [awserr.Error]; the error itself otherwise. *)
Definition flatten_error (err : error) : error :=
  match as_awserr err with
  | Some (code, message) => PlainError (code +:+ ": " +:+ message)
  | None => err
  end.

(** *** Describe *)

Definition buildBucketDetails (bucketName region partition : string)
    (attributes : gmap string string) : BucketDetails :=
  {| BucketName := bucketName;
     Region := region;
     ARN := "arn:" +:+ partition +:+ ":s3:::" +:+ bucketName;
     FIPSEndpoint := "s3-fips." +:+ region +:+ ".amazonaws.com";
     Tags := ∅;
     Encryption := "";
     Policy := "";
     ObjectOwnership := "" |}.

Definition Describe (bucketName partition : string) : M (BucketDetails * option error) :=
  r ← s3svc_GetBucketLocation bucketName;
  match r with
  | inl err => mret (BucketDetails_zero, Some (flatten_error err))
  | inr LocationConstraint =>
      let region := match LocationConstraint with
                    | None => "us-east-1"
                    | Some region => region
                    end in
      mret (buildBucketDetails bucketName region partition ∅, None)
  end.

(** *** Create and its two reconciliation procedures *)

Definition maxRetries : nat := 10.

(** The statement the reconciler compares with: [publicAccessPolicy]. *)
Definition publicAccessPolicy : bucketPolicyStatement :=
  {| Effect := "Allow"; Principal := "*"; Action := ["s3:GetObject"]; Resource := [] |}.

(** The function handed to [slices.ContainsFunc]; [slices.Equal] is
    equality of the two lists, element by element and in order. *)
Definition matches_publicAccessPolicy (statement : bucketPolicyStatement) : bool :=
  bool_decide (Effect statement = Effect publicAccessPolicy) &&
  bool_decide (Principal statement = Principal publicAccessPolicy) &&
  bool_decide (Action statement = Action publicAccessPolicy).

Definition checkIsPublicAccessBlockDeleted (bucketName : string) : M (bool * option error) :=
  err ← s3svc_GetPublicAccessBlock bucketName;
  mret match err with
       | None => (false, None)
       | Some e =>
           match as_awserr e with
           | Some (code, _) =>
               if String.eqb code "NoSuchPublicAccessBlockConfiguration"
               then (true, None)
               else (false, Some e)
           | None => (false, None)
           end
       end.

(** The loop [for !isDeleted && retries < maxRetries] of
    [checkDeletePublicAccessBlock], entered with the result of the first
    probe; it returns the error of a failed probe, [None] otherwise. *)
Equations? confirm_loop (bucketName : string) (isDeleted : bool) (retries : nat)
    (b : B) : option error * B * list event by wf (maxRetries - retries) lt :=
confirm_loop bucketName true retries b := (None, b, []);
confirm_loop bucketName false retries b with lt_dec retries maxRetries := {
  | right _ => (None, b, [])
  | left _ with (time_Sleep 1;; checkIsPublicAccessBlockDeleted bucketName) b := {
    | ((_, Some err), b', t) => (Some err, b', t)
    | ((isDeleted', None), b', t) =>
        preceded_by t (confirm_loop bucketName isDeleted' (retries + 1) b') } }.
Proof. lia. Qed.

Definition checkDeletePublicAccessBlock (bucketDetails : BucketDetails)
    (bucketName : string) : M (option error) :=
  if String.eqb (Policy bucketDetails) "" then mret None else
  match json_Unmarshal_policy (Policy bucketDetails) with
  | inl err => mret (Some err)
  | inr policy =>
      if 1 <? length (Statement policy) then
        mret (Some (PlainError ("expected 1 policy statement, got "
                                +:+ pretty (length (Statement policy)))))
      else if existsb matches_publicAccessPolicy (Statement policy) then
        err ← s3svc_DeletePublicAccessBlock bucketName;
        match err with
        | Some e => mret (Some e)
        | None =>
            '(isDeleted, err) ← checkIsPublicAccessBlockDeleted bucketName;
            match err with
            | Some e => mret (Some e)
            | None => confirm_loop bucketName isDeleted 0
            end
        end
      else mret None
  end.

(** Called on the non-nil [err] of the loop; a value that is not an
    [awserr.Error] is not an access-denied failure. *)
Definition isAccessDeniedException (err : error) : bool :=
  match as_awserr err with
  | Some (code, _) => String.eqb code "AccessDenied"
  | None => false
  end.

(** The loop [for err != nil && retries < maxRetries] of
    [putBucketPolicyWithRetries], entered with the error of the first
    call; it returns the function's result. *)
Equations? putPolicy_loop (bucket policy : string) (err : option error) (retries : nat)
    (b : B) : option error * B * list event by wf (maxRetries - retries) lt :=
putPolicy_loop bucket policy None retries b := (None, b, []);
putPolicy_loop bucket policy (Some e) retries b with lt_dec retries maxRetries := {
  | right _ => (Some e, b, [])
  | left _ with isAccessDeniedException e := {
    | false => (Some e, b, [])
    | true with s3svc_PutBucketPolicy bucket policy b := {
      | (err', b', t) =>
          preceded_by t (putPolicy_loop bucket policy err' (retries + 1) b') } } }.
Proof. lia. Qed.

Definition putBucketPolicyWithRetries (bucketDetails : BucketDetails)
    (bucketName : string) : M (option error) :=
  if String.length (Policy bucketDetails) =? 0 then mret None else
  let bucketDetails := with_BucketName bucketName bucketDetails in
  match template_Parse (Policy bucketDetails) with
  | inl err => mret (Some err)
  | inr tmpl =>
      match template_Execute tmpl bucketDetails with
      | inl err => mret (Some err)
      | inr policy =>
          err ← s3svc_PutBucketPolicy (BucketName bucketDetails) policy;
          putPolicy_loop (BucketName bucketDetails) policy err 0
      end
  end.

(** [Create] returns the pair (location, error) of the Go function.  The
    order in which Go ranges over the [Tags] map is not specified; the
    model takes the order of [map_to_list]. *)
Definition Create (bucketName : string) (bucketDetails : BucketDetails)
    : M (string * option error) :=
  r ← s3svc_CreateBucket bucketName (ObjectOwnership bucketDetails);
  match r with
  | inl err => mret ("", Some (flatten_error err))
  | inr Location =>
      let tags := map_to_list (Tags bucketDetails) in
      err ← s3svc_PutBucketTagging bucketName tags;
      match err with
      | Some e => mret ("", Some e)
      | None =>
          err ← (if 0 <? String.length (Encryption bucketDetails) then
                   match json_Unmarshal_encryption (Encryption bucketDetails) with
                   | inl e => mret (Some e)
                   | inr encryptionConfig =>
                       err ← s3svc_PutBucketEncryption bucketName encryptionConfig;
                       mret (flatten_error <$> err)
                   end
                 else mret None);
          match err with
          | Some e => mret ("", Some e)
          | None =>
              err ← checkDeletePublicAccessBlock bucketDetails bucketName;
              match err with
              | Some e => mret ("", Some e)
              | None =>
                  err ← putBucketPolicyWithRetries bucketDetails bucketName;
                  match err with
                  | Some e => mret ("", Some e)
                  | None => mret (default "" Location, None)
                  end
              end
          end
      end
  end.

(** *** Modify *)

Definition Modify (bucketName : string) (bucketDetails : BucketDetails) : M (option error) :=
  mret None.

(** *** Delete *)

(** The body of [isBatchDeleteNoBucketError] once [OrigErr()] has been
    asserted to be the slice [origBatchErrs]; [isNoSuchBucketError] is the
    function it calls back.  Indexing an empty slice panics. *)
Definition isBatchDeleteNoBucketError_on (isNoSuchBucketError : error → outcome bool)
    (origBatchErrs : list (s3manager_Error error)) : outcome bool :=
  if 1 <? length origBatchErrs then Returns false else
  match origBatchErrs with
  | [] => Panics "index out of range [0] with length 0"
  | origBatchErr :: _ =>
      match OrigErr origBatchErr with
      | Some orig => isNoSuchBucketError orig
      | None => Returns false
      end
  end.

Fixpoint isNoSuchBucketError (err : error) : outcome bool :=
  match err with
  | PlainError _ => Returns false
  | AwsError code _ => Returns (String.eqb code "NoSuchBucket")
  | BatchError _ _ origBatchErrs =>
      isBatchDeleteNoBucketError_on isNoSuchBucketError origBatchErrs
  end.

(** [isBatchDeleteNoBucketError] is only called on a [BatchError]; the
    original error of any other [awserr.Error] is no [s3manager.Errors]. *)
Definition isBatchDeleteNoBucketError (batchErr : error) : outcome bool :=
  match batchErr with
  | BatchError _ _ origBatchErrs =>
      isBatchDeleteNoBucketError_on isNoSuchBucketError origBatchErrs
  | _ => Returns false
  end.

Definition handleDeleteError (err : error) : outcome (option error) :=
  match isNoSuchBucketError err with
  | Returns true => Returns None
  | Returns false => Returns (Some err)
  | Panics reason => Panics reason
  end.

(** Both arguments of the batch deletion are built from the type assertion
    of [s.s3svc] to the client of the SDK, which panics on any other
    client, before anything is called. *)
Definition deleteBucketContents (bucketName : string) : M (outcome (option error)) :=
  if is_s3_S3 then
    err ← s3manager_BatchDelete bucketName;
    mret match err with
         | Some e => handleDeleteError e
         | None => Returns None
         end
  else mret (Panics "interface conversion: awss3.S3Client is not *s3.S3").

Definition Delete (bucketName : string) (deleteObjects : bool) : M (outcome (option error)) :=
  contentDeleteErr ← (if deleteObjects then deleteBucketContents bucketName
                      else mret (Returns None));
  match contentDeleteErr with
  | Panics reason => mret (Panics reason)
  | Returns (Some e) => mret (Returns (Some e))
  | Returns None =>
      err ← s3svc_DeleteBucket bucketName;
      mret match err with
           | Some e => handleDeleteError e
           | None => Returns None
           end
  end.

End Bucket.

(** ** Vocabulary of the statements *)

(** A failure that reports the bucket absent: an [awserr.Error] of code
    NoSuchBucket, or a batch error with exactly one cause, which is such a
    failure. *)
Inductive bucket_absent : error → Prop :=
| absent_coded (message : string) :
    bucket_absent (AwsError "NoSuchBucket" message)
| absent_wrapped (code message : string) (cause : error) (bucket key : option string) :
    bucket_absent cause →
    bucket_absent (BatchError code message [mkS3ManagerError (Some cause) bucket key]).

(** The result of a call is a success or reports the bucket absent. *)
Definition ok_or_absent (r : option error) : Prop :=
  ∀ e, r = Some e → bucket_absent e.

(** An [awserr.Error] of code AccessDenied. *)
Definition access_denied (err : error) : Prop :=
  ∃ message, as_awserr err = Some ("AccessDenied", message).

(** The public-read statement: effect Allow, principal "*", and the one
    action "s3:GetObject". *)
Definition public_read (statement : bucketPolicyStatement) : Prop :=
  Effect statement = "Allow" ∧ Principal statement = "*" ∧
  Action statement = ["s3:GetObject"].

(** [k] rounds of the confirmation poll: a sleep of one second, then a
    probe. *)
Definition probe_rounds {L : GoLibs} (bucketName : string) (k : nat) : list event :=
  concat (replicate k [EvSleep 1; EvGetPublicAccessBlock bucketName]).

(** One more probe on the backend a previous probe left; iterated, it
    gives the results of consecutive probes, each with the backend state
    it leaves. *)
Definition probe_again {L : GoLibs} {B : Type} {Client : S3Client B}
    (bucketName : string) (s : bool * option error * B) : bool * option error * B :=
  (checkIsPublicAccessBlockDeleted bucketName s.2).1.

(** The tagging and encryption calls of [Create]. *)
Definition is_provisioning {L : GoLibs} (e : event) : bool :=
  is_PutBucketTagging e || is_PutBucketEncryption e.

(** One more [PutBucketPolicy] call on the backend a previous call left;
    iterated, it gives the answers of the backend to consecutive calls. *)
Definition PutBucketPolicy_again {L : GoLibs} {B : Type} {Client : S3Client B}
    (bucket policy : string) (r : option error * B) : option error * B :=
  PutBucketPolicy bucket policy r.2.

(** The first steps of [Create] succeed from backend state [b]: the bucket
    is created with [Location], tagged and, if an encryption configuration
    is given, encrypted, which leaves the backend in state [b3]. *)
Definition provisioned {L : GoLibs} {B : Type} {Client : S3Client B}
    (bucketName : string) (bucketDetails : BucketDetails) (b b3 : B)
    (Location : option string) : Prop :=
  ∃ b1 b2,
    CreateBucket bucketName (ObjectOwnership bucketDetails) b = (inr Location, b1) ∧
    PutBucketTagging bucketName (map_to_list (Tags bucketDetails)) b1 = (None, b2) ∧
    if 0 <? String.length (Encryption bucketDetails) then
      ∃ config, json_Unmarshal_encryption (Encryption bucketDetails) = inr config ∧
                PutBucketEncryption bucketName config b2 = (None, b3)
    else b3 = b2.

(** ** A fragment of [text/template]

    The policy is rendered by Go's [text/template] with the default
    delimiters.  The fragment modelled here is the one policy documents
    use: text, copied as it is, and actions that print one string field of
    the data, [{{.Field}}], with blanks allowed on either side of the
    field and a trim marker allowed at either delimiter: a minus and a
    blank after the left one remove the white space that ends the text
    before the action, a blank and a minus before the right one remove the
    white space that starts the text after it.  [parse] and [execute]
    answer [None] on everything else (pipelines, keywords, comments, the
    [Tags] map, ...): the fragment says nothing about those. *)
Module TextTemplate.

Inductive node : Type :=
| TextNode (text : string)
| FieldNode (field : string).

(** Where the lexer stands: in text (with the text read since the last
    action, and whether white space is being skipped after an action that
    ended in a trim marker), after the left delimiter, inside a field name,
    or after it. *)
Inductive state : Type :=
| InText (skip : bool) (text : string)
| ActionOpen
| InField (name : string)
| ActionClose (name : string).

Definition is_alnum (c : ascii) : bool :=
  let n := nat_of_ascii c in
  ((48 <=? n) && (n <=? 57)) || ((65 <=? n) && (n <=? 90)) ||
  ((97 <=? n) && (n <=? 122)) || (n =? 95).

(** The white space a trim marker removes: blank, tab, carriage return and
    newline. *)
Definition is_space (c : ascii) : bool :=
  Ascii.eqb c " " || Ascii.eqb c "009" || Ascii.eqb c "013" || Ascii.eqb c "010".

(** [strings.TrimLeft] and [strings.TrimRight] with this white space. *)
Fixpoint trim_left (s : string) : string :=
  match s with
  | EmptyString => ""
  | String c rest => if is_space c then trim_left rest else s
  end.

Fixpoint trim_right (s : string) : string :=
  match s with
  | EmptyString => ""
  | String c rest =>
      match trim_right rest with
      | EmptyString => if is_space c then "" else String c ""
      | kept => String c kept
      end
  end.

Definition text_node (text : string) : list node :=
  if String.eqb text "" then [] else [TextNode text].

Definition snoc (s : string) (c : ascii) : string := s +:+ String c "".

Fixpoint scan (st : state) (s : string) {struct s} : option (list node) :=
  match s with
  | EmptyString =>
      match st with
      | InText _ text => Some (text_node text)
      | _ => None
      end
  | String c rest =>
      match st with
      | InText skip text =>
          if skip && is_space c then scan (InText true text) rest
          else if Ascii.eqb c "{" then
            match rest with
            | String c' rest' =>
                if Ascii.eqb c' "{" then
                  match rest' with
                  | String "-" (String " " rest'') =>
                      (text_node (trim_right text) ++.) <$> scan ActionOpen rest''
                  | _ => (text_node text ++.) <$> scan ActionOpen rest'
                  end
                else scan (InText false (snoc text c)) rest
            | EmptyString => scan (InText false (snoc text c)) rest
            end
          else scan (InText false (snoc text c)) rest
      | ActionOpen =>
          if Ascii.eqb c " " then scan ActionOpen rest
          else if Ascii.eqb c "." then scan (InField "") rest
          else None
      | InField name =>
          if is_alnum c then scan (InField (snoc name c)) rest
          else if String.eqb name "" then None
          else if Ascii.eqb c " " then scan (ActionClose name) rest
          else if Ascii.eqb c "}" then
            match rest with
            | String "}" rest' => (FieldNode name ::.) <$> scan (InText false "") rest'
            | _ => None
            end
          else None
      | ActionClose name =>
          if Ascii.eqb c " " then scan (ActionClose name) rest
          else if Ascii.eqb c "}" then
            match rest with
            | String "}" rest' => (FieldNode name ::.) <$> scan (InText false "") rest'
            | _ => None
            end
          else if Ascii.eqb c "-" then
            match rest with
            | String "}" (String "}" rest') =>
                (FieldNode name ::.) <$> scan (InText true "") rest'
            | _ => None
            end
          else None
      end
  end.

Definition parse (text : string) : option (list node) := scan (InText false "") text.


(** The string fields of [BucketDetails]; printing a string field writes
    it as it is. *)
Definition field_value (data : BucketDetails) (field : string) : option string :=
  if String.eqb field "BucketName" then Some (BucketName data)
  else if String.eqb field "Region" then Some (Region data)
  else if String.eqb field "ARN" then Some (ARN data)
  else if String.eqb field "FIPSEndpoint" then Some (FIPSEndpoint data)
  else if String.eqb field "Encryption" then Some (Encryption data)
  else if String.eqb field "Policy" then Some (Policy data)
  else if String.eqb field "ObjectOwnership" then Some (ObjectOwnership data)
  else None.

Fixpoint execute (tmpl : list node) (data : BucketDetails) : option string :=
  match tmpl with
  | [] => Some ""
  | TextNode text :: tmpl' => String.append text <$> execute tmpl' data
  | FieldNode field :: tmpl' =>
      v ← field_value data field;
      String.append v <$> execute tmpl' data
  end.

Definition render (text : string) (data : BucketDetails) : option string :=
  tmpl ← parse text; execute tmpl data.

(** A template written as a sequence of literal text and bucket-name
    placeholders: [pad_left] and [pad_right] blanks around the field, a
    trim marker after the left delimiter if [trim_before], one before the
    right delimiter if [trim_after]. *)
Inductive segment : Type :=
| Literal (text : string)
| BucketNamePlaceholder (trim_before : bool) (pad_left pad_right : nat) (trim_after : bool).

Fixpoint blanks (n : nat) : string :=
  match n with
  | 0 => ""
  | S n' => String " " (blanks n')
  end.

Definition segment_text (g : segment) : string :=
  match g with
  | Literal text => text
  | BucketNamePlaceholder trim_before l r trim_after =>
      "{{" +:+ (if trim_before then "- " else "") +:+ blanks l +:+ ".BucketName"
      +:+ blanks r +:+ (if trim_after then " -" else "") +:+ "}}"
  end.

Fixpoint template_text (segs : list segment) : string :=
  match segs with
  | [] => ""
  | g :: segs' => segment_text g +:+ template_text segs'
  end.

(** The template with every placeholder replaced by [bucketName] and
    every other character kept. *)
Fixpoint substitute (bucketName : string) (segs : list segment) : string :=
  match segs with
  | [] => ""
  | Literal text :: segs' => text +:+ substitute bucketName segs'
  | BucketNamePlaceholder _ _ _ _ :: segs' => bucketName +:+ substitute bucketName segs'
  end.

(** The same, with the white space next to a trim marker removed: the
    text between two placeholders loses its leading white space if the
    placeholder before it ends in a trim marker, and its trailing white
    space if the placeholder after it starts with one.  [text] is the
    literal text met since the last placeholder, which ended in a trim
    marker if [after_trim]. *)
Fixpoint trimmed_substitute (bucketName : string) (after_trim : bool) (text : string)
    (segs : list segment) : string :=
  match segs with
  | [] => if after_trim then trim_left text else text
  | Literal text' :: segs' => trimmed_substitute bucketName after_trim (text +:+ text') segs'
  | BucketNamePlaceholder trim_before _ _ trim_after :: segs' =>
      let text := if after_trim then trim_left text else text in
      (if trim_before then trim_right text else text)
      +:+ bucketName +:+ trimmed_substitute bucketName trim_after "" segs'
  end.

Definition trim_marked (g : segment) : bool :=
  match g with
  | Literal _ => false
  | BucketNamePlaceholder trim_before _ _ trim_after => trim_before || trim_after
  end.

(** Literal text holds no left delimiter and does not end in an opening
    brace, which would join the brace of what follows. *)
Fixpoint literal_text (text : string) : bool :=
  match text with
  | EmptyString => true
  | String c rest =>
      if Ascii.eqb c "{" then
        match rest with
        | EmptyString => false
        | String c' _ => negb (Ascii.eqb c' "{") && literal_text rest
        end
      else literal_text rest
  end.

Definition literal_segment (g : segment) : bool :=
  match g with
  | Literal text => literal_text text
  | BucketNamePlaceholder _ _ _ _ => true
  end.

Fixpoint all_space (s : string) : bool :=
  match s with
  | EmptyString => true
  | String c rest => is_space c && all_space rest
  end.

(** The lexer in text, having read [raw] since the last action, which
    ended in a trim marker if [after_trim]. *)
Definition in_text (after_trim : bool) (raw : string) : state :=
  InText (after_trim && all_space raw) (if after_trim then trim_left raw else raw).

End TextTemplate.

(** A [GoLibs] whose template engine does what the fragment does, wherever
    the fragment is defined. *)
Definition extends_TextTemplate (L : GoLibs) : Prop :=
  ∀ text data out,
    TextTemplate.render text data = Some out →
    ∃ tmpl, template_Parse text = inr tmpl ∧ template_Execute tmpl data = inr out.

(** ** Fixtures

    A fake client in the manner of the generated fakes the Go tests use,
    and a [GoLibs] made of the template fragment above and of a JSON decoder
    that knows a given list of policy documents and of encryption
    configurations, and fails on every other text. *)
Module Fake.

(** The fake serves every call with its stub; its state is the number of
    calls served so far, which the stubs of the polled methods receive.  As a
    value of its own type it fails the type assertion of
    [deleteBucketContents]. *)
Record stubs {L : GoLibs} : Type := mkStubs {
  GetBucketLocationReturns : error + option string;
  CreateBucketReturns : error + option string;
  PutBucketTaggingReturns : option error;
  PutBucketEncryptionReturns : option error;
  PutBucketPolicyStub : nat → option error;
  DeletePublicAccessBlockReturns : option error;
  DeleteBucketReturns : option error;
  GetPublicAccessBlockStub : nat → option error;
  BatchDeleteReturns : option error;
}.

Definition client {L : GoLibs} (f : stubs) : S3Client nat := {|
  is_s3_S3 := false;
  GetBucketLocation _ n := (GetBucketLocationReturns f, S n);
  CreateBucket _ _ n := (CreateBucketReturns f, S n);
  PutBucketTagging _ _ n := (PutBucketTaggingReturns f, S n);
  PutBucketEncryption _ _ n := (PutBucketEncryptionReturns f, S n);
  PutBucketPolicy _ _ n := (PutBucketPolicyStub f n, S n);
  DeletePublicAccessBlock _ n := (DeletePublicAccessBlockReturns f, S n);
  DeleteBucket _ n := (DeleteBucketReturns f, S n);
  GetPublicAccessBlock _ n := (GetPublicAccessBlockStub f n, S n);
  BatchDelete _ n := (BatchDeleteReturns f, S n);
|}.

(** The client of the SDK itself, in front of a service that answers as the
    stubs say: it passes the type assertion, and [BatchDeleteReturns] is what
    the batch deletion of [s3manager] makes of the answers of the service. *)
Definition sdk_client {L : GoLibs} (f : stubs) : S3Client nat := {|
  is_s3_S3 := true;
  GetBucketLocation _ n := (GetBucketLocationReturns f, S n);
  CreateBucket _ _ n := (CreateBucketReturns f, S n);
  PutBucketTagging _ _ n := (PutBucketTaggingReturns f, S n);
  PutBucketEncryption _ _ n := (PutBucketEncryptionReturns f, S n);
  PutBucketPolicy _ _ n := (PutBucketPolicyStub f n, S n);
  DeletePublicAccessBlock _ n := (DeletePublicAccessBlockReturns f, S n);
  DeleteBucket _ n := (DeleteBucketReturns f, S n);
  GetPublicAccessBlock _ n := (GetPublicAccessBlockStub f n, S n);
  BatchDelete _ n := (BatchDeleteReturns f, S n);
|}.

(** Every call succeeds; the bucket is in the default region. *)
Definition happy {L : GoLibs} : stubs := {|
  GetBucketLocationReturns := inr None;
  CreateBucketReturns := inr (Some "/my-bucket");
  PutBucketTaggingReturns := None;
  PutBucketEncryptionReturns := None;
  PutBucketPolicyStub _ := None;
  DeletePublicAccessBlockReturns := None;
  DeleteBucketReturns := None;
  GetPublicAccessBlockStub _ := None;
  BatchDeleteReturns := None;
|}.

Definition accessDenied : error := AwsError "AccessDenied" "Access Denied".
Definition noSuchBucket : error :=
  AwsError "NoSuchBucket" "The specified bucket does not exist".
Definition batchError (causes : list (s3manager_Error error)) : error :=
  BatchError "BatchedDeleteIncomplete" "some objects have failed to be deleted." causes.

(** The lookup succeeds with a location constraint that points to the
    empty string. *)
Definition emptyLocation {L : GoLibs} : stubs := {|
  GetBucketLocationReturns := inr (Some "");
  CreateBucketReturns := CreateBucketReturns happy;
  PutBucketTaggingReturns := None;
  PutBucketEncryptionReturns := None;
  PutBucketPolicyStub _ := None;
  DeletePublicAccessBlockReturns := None;
  DeleteBucketReturns := None;
  GetPublicAccessBlockStub _ := None;
  BatchDeleteReturns := None;
|}.

(** The permissions of the new bucket take [k] calls to propagate: until
    then [PutBucketPolicy] is denied and the access block still shows. *)
Definition eventually {L : GoLibs} (k : nat) : stubs := {|
  GetBucketLocationReturns := inr None;
  CreateBucketReturns := CreateBucketReturns happy;
  PutBucketTaggingReturns := None;
  PutBucketEncryptionReturns := None;
  PutBucketPolicyStub n := if n <? k then Some accessDenied else None;
  DeletePublicAccessBlockReturns := None;
  DeleteBucketReturns := None;
  GetPublicAccessBlockStub n :=
    if n <? k then None
    else Some (AwsError "NoSuchPublicAccessBlockConfiguration"
                 "The public access block configuration was not found");
  BatchDeleteReturns := None;
|}.

(** The bucket cannot be created. *)
Definition createFails {L : GoLibs} : stubs := {|
  GetBucketLocationReturns := inr None;
  CreateBucketReturns := inl (AwsError "BucketAlreadyExists" "The requested bucket name is not available");
  PutBucketTaggingReturns := None;
  PutBucketEncryptionReturns := None;
  PutBucketPolicyStub _ := None;
  DeletePublicAccessBlockReturns := None;
  DeleteBucketReturns := None;
  GetPublicAccessBlockStub _ := None;
  BatchDeleteReturns := None;
|}.

(** Every [PutBucketPolicy] is denied. *)
Definition denying {L : GoLibs} : stubs := {|
  GetBucketLocationReturns := inr None;
  CreateBucketReturns := CreateBucketReturns happy;
  PutBucketTaggingReturns := None;
  PutBucketEncryptionReturns := None;
  PutBucketPolicyStub _ := Some accessDenied;
  DeletePublicAccessBlockReturns := None;
  DeleteBucketReturns := None;
  GetPublicAccessBlockStub _ := None;
  BatchDeleteReturns := None;
|}.

(** The bucket does not exist: the batch deletion wraps the failure of
    its listing, the bucket deletion reports it directly. *)
Definition absent {L : GoLibs} : stubs := {|
  GetBucketLocationReturns := inl noSuchBucket;
  CreateBucketReturns := CreateBucketReturns happy;
  PutBucketTaggingReturns := None;
  PutBucketEncryptionReturns := None;
  PutBucketPolicyStub _ := None;
  DeletePublicAccessBlockReturns := None;
  DeleteBucketReturns := Some noSuchBucket;
  GetPublicAccessBlockStub _ := None;
  BatchDeleteReturns := Some (batchError [mkS3ManagerError (Some noSuchBucket) None None]);
|}.

(** Two objects could not be deleted. *)
Definition twoCauses : list (s3manager_Error error) :=
  [mkS3ManagerError (Some accessDenied) (Some "my-bucket") (Some "a");
   mkS3ManagerError (Some accessDenied) (Some "my-bucket") (Some "b")].

Definition batchFails {L : GoLibs} : stubs := {|
  GetBucketLocationReturns := inr None;
  CreateBucketReturns := CreateBucketReturns happy;
  PutBucketTaggingReturns := None;
  PutBucketEncryptionReturns := None;
  PutBucketPolicyStub _ := None;
  DeletePublicAccessBlockReturns := None;
  DeleteBucketReturns := None;
  GetPublicAccessBlockStub _ := None;
  BatchDeleteReturns := Some (batchError twoCauses);
|}.

(** JSON text of a policy document, for strings that need no escaping. *)
Definition quoted (s : string) : string := String "034" s +:+ String "034" "".

Fixpoint comma_separated (items : list string) : string :=
  match items with
  | [] => ""
  | [item] => item
  | item :: items' => item +:+ "," +:+ comma_separated items'
  end.

Definition json_array (items : list string) : string :=
  "[" +:+ comma_separated items +:+ "]".

Definition json_member (key value : string) : string := quoted key +:+ ":" +:+ value.

Definition json_statement (st : bucketPolicyStatement) : string :=
  "{" +:+ comma_separated
    [json_member "Effect" (quoted (Effect st));
     json_member "Principal" (quoted (Principal st));
     json_member "Action" (json_array (quoted <$> Action st));
     json_member "Resource" (json_array (quoted <$> Resource st))] +:+ "}".

Definition json_policy (p : bucketPolicy) : string :=
  "{" +:+ comma_separated
    [json_member "Version" (quoted (Version p));
     json_member "Statement" (json_array (json_statement <$> Statement p))] +:+ "}".

(** The decoder of the fixture: the known document whose text this is. *)
Definition decode_known (known : list bucketPolicy) (doc : string) : error + bucketPolicy :=
  match List.find (λ p, String.eqb (json_policy p) doc) known with
  | Some p => inr p
  | None => inl (PlainError "invalid character looking for beginning of value")
  end.

Definition publicRead : bucketPolicyStatement :=
  {| Effect := "Allow"; Principal := "*"; Action := ["s3:GetObject"];
     Resource := ["arn:aws:s3:::{{.BucketName}}/*"] |}.

Definition publicWrite : bucketPolicyStatement :=
  {| Effect := "Allow"; Principal := "*"; Action := ["s3:PutObject"];
     Resource := ["arn:aws:s3:::{{.BucketName}}/*"] |}.

Definition policy_of (statements : list bucketPolicyStatement) : bucketPolicy :=
  {| Version := "2012-10-17"; Statement := statements |}.

Definition known_policies : list bucketPolicy :=
  [policy_of []; policy_of [publicRead]; policy_of [publicWrite];
   policy_of [publicRead; publicWrite]].

(** An encryption configuration, as far as the fixtures go: the
    [SSEAlgorithm] of the [ApplyServerSideEncryptionByDefault] of each of
    its [Rules]. *)
Definition json_encryption_rule (algorithm : string) : string :=
  "{" +:+ json_member "ApplyServerSideEncryptionByDefault"
            ("{" +:+ json_member "SSEAlgorithm" (quoted algorithm) +:+ "}") +:+ "}".

Definition json_encryption (algorithms : list string) : string :=
  "{" +:+ json_member "Rules" (json_array (json_encryption_rule <$> algorithms)) +:+ "}".

Definition known_encryptions : list (list string) := [["AES256"]; ["aws:kms"]].

Definition decode_known_encryption (known : list (list string)) (doc : string)
    : error + list string :=
  match List.find (λ c, String.eqb (json_encryption c) doc) known with
  | Some c => inr c
  | None => inl (PlainError "invalid character looking for beginning of value")
  end.

Definition libs : GoLibs := {|
  ServerSideEncryptionConfiguration := list string;
  Template := list TextTemplate.node;
  json_Unmarshal_encryption := decode_known_encryption known_encryptions;
  json_Unmarshal_policy := decode_known known_policies;
  template_Parse text :=
    match TextTemplate.parse text with
    | Some tmpl => inr tmpl
    | None => inl (PlainError "template: policy: not in the modelled fragment")
    end;
  template_Execute tmpl data :=
    match TextTemplate.execute tmpl data with
    | Some out => inr out
    | None => inl (PlainError "template: policy: not in the modelled fragment")
    end;
|}.

Definition details (policy : string) : BucketDetails :=
  {| BucketName := ""; Region := ""; ARN := ""; FIPSEndpoint := ""; Tags := ∅;
     Encryption := ""; Policy := policy; ObjectOwnership := "BucketOwnerEnforced" |}.

Definition noStatement : BucketDetails := details (json_policy (policy_of [])).
Definition publicReadDetails : BucketDetails := details (json_policy (policy_of [publicRead])).
Definition publicWriteDetails : BucketDetails := details (json_policy (policy_of [publicWrite])).
Definition twoStatements : BucketDetails :=
  details (json_policy (policy_of [publicRead; publicWrite])).

(** The bucket is created but cannot be tagged. *)
Definition taggingFails {L : GoLibs} : stubs := {|
  GetBucketLocationReturns := inr None;
  CreateBucketReturns := CreateBucketReturns happy;
  PutBucketTaggingReturns := Some accessDenied;
  PutBucketEncryptionReturns := None;
  PutBucketPolicyStub _ := None;
  DeletePublicAccessBlockReturns := None;
  DeleteBucketReturns := None;
  GetPublicAccessBlockStub _ := None;
  BatchDeleteReturns := None;
|}.

(** The access block cannot be deleted. *)
Definition deletionFails {L : GoLibs} : stubs := {|
  GetBucketLocationReturns := inr None;
  CreateBucketReturns := CreateBucketReturns happy;
  PutBucketTaggingReturns := None;
  PutBucketEncryptionReturns := None;
  PutBucketPolicyStub _ := None;
  DeletePublicAccessBlockReturns := Some accessDenied;
  DeleteBucketReturns := None;
  GetPublicAccessBlockStub _ := None;
  BatchDeleteReturns := None;
|}.

(** Every probe fails below the SDK, with an error that is no
    [awserr.Error]. *)
Definition probeTimesOut {L : GoLibs} : stubs := {|
  GetBucketLocationReturns := inr None;
  CreateBucketReturns := CreateBucketReturns happy;
  PutBucketTaggingReturns := None;
  PutBucketEncryptionReturns := None;
  PutBucketPolicyStub _ := None;
  DeletePublicAccessBlockReturns := None;
  DeleteBucketReturns := None;
  GetPublicAccessBlockStub _ := Some (PlainError "context deadline exceeded");
  BatchDeleteReturns := None;
|}.

(** A bucket without a policy, and one with an encryption configuration. *)
Definition privateDetails : BucketDetails := details "".
Definition encryptedDetails : BucketDetails :=
  {| BucketName := "other-bucket"; Region := ""; ARN := ""; FIPSEndpoint := ""; Tags := ∅;
     Encryption := json_encryption ["AES256"]; Policy := ""; ObjectOwnership := "BucketOwnerEnforced" |}.

(** A private bucket with two tags. *)
Definition taggedDetails : BucketDetails :=
  {| BucketName := ""; Region := ""; ARN := ""; FIPSEndpoint := "";
     Tags := {["env" := "prod"; "team" := "storage"]};
     Encryption := ""; Policy := ""; ObjectOwnership := "BucketOwnerEnforced" |}.

(** The text of a JSON document that lists two resources. *)
Definition json_resources (first second : string) : string :=
  "{" +:+ json_member "Resource" (json_array [quoted first; quoted second]) +:+ "}".

(** A policy template: literal text around two bucket-name placeholders,
    without trim markers. *)
Definition resource_template : list TextTemplate.segment :=
  [TextTemplate.Literal ("{" +:+ quoted "Resource" +:+ ":[" +:+ String "034" "arn:aws:s3:::");
   TextTemplate.BucketNamePlaceholder false 0 0 false;
   TextTemplate.Literal (String "034" "," +:+ String "034" "arn:aws:s3:::");
   TextTemplate.BucketNamePlaceholder false 1 1 false;
   TextTemplate.Literal ("/*" +:+ String "034" "]}")].

(** The same template with blanks around the placeholders, and a trim
    marker on the side of each blank. *)
Definition trimming_template : list TextTemplate.segment :=
  [TextTemplate.Literal ("{" +:+ quoted "Resource" +:+ ":[" +:+ String "034" "arn:aws:s3::: ");
   TextTemplate.BucketNamePlaceholder true 0 0 false;
   TextTemplate.Literal (String "034" "," +:+ String "034" "arn:aws:s3:::");
   TextTemplate.BucketNamePlaceholder false 1 0 true;
   TextTemplate.Literal (" /*" +:+ String "034" "]}")].

End Fake.

(** ** Vocabulary of the further statements *)

Definition is_GetBucketLocation {L : GoLibs} (e : event) : bool :=
  match e with EvGetBucketLocation _ => true | _ => false end.
Definition is_DeleteBucket {L : GoLibs} (e : event) : bool :=
  match e with EvDeleteBucket _ => true | _ => false end.
Definition is_BatchDelete {L : GoLibs} (e : event) : bool :=
  match e with EvBatchDelete _ => true | _ => false end.

(** The bucket a call is made on; a sleep is on none. *)
Definition event_bucket {L : GoLibs} (e : event) : option string :=
  match e with
  | EvGetBucketLocation bucket | EvCreateBucket bucket _ | EvPutBucketTagging bucket _
  | EvPutBucketEncryption bucket _ | EvPutBucketPolicy bucket _
  | EvDeletePublicAccessBlock bucket | EvDeleteBucket bucket
  | EvGetPublicAccessBlock bucket | EvBatchDelete bucket => Some bucket
  | EvSleep _ => None
  end.

(** Every call of the trace is made on [bucketName]. *)
Definition on_bucket {L : GoLibs} (bucketName : string) (t : list event) : Prop :=
  Forall (λ e, ∀ bucket, event_bucket e = Some bucket → bucket = bucketName) t.

(** A batch error without any cause, possibly wrapped in batch errors of
    one cause each. *)
Inductive empty_batch : error → Prop :=
| empty_batch_here (code message : string) :
    empty_batch (BatchError code message [])
| empty_batch_wrapped (code message : string) (cause : error) (bucket key : option string) :
    empty_batch cause →
    empty_batch (BatchError code message [mkS3ManagerError (Some cause) bucket key]).

(** * Properties *)

Section Traces.
Context {L : GoLibs} {B : Type} {Client : S3Client B}.

Lemma count_nil (p : event → bool) : count p [] = 0.
Proof. reflexivity. Qed.

Lemma count_cons (p : event → bool) (e : event) (t : list event) :
  count p (e :: t) = (if p e then 1 else 0) + count p t.
Proof.
  unfold count. rewrite filter_cons.
  destruct (p e); [by rewrite decide_True | by rewrite decide_False].
Qed.

Lemma count_app (p : event → bool) (t1 t2 : list event) :
  count p (t1 ++ t2) = count p t1 + count p t2.
Proof. unfold count. by rewrite filter_app, length_app. Qed.

Lemma count_zero_Forall (p : event → bool) (t : list event) :
  Forall (λ e, p e = false) t → count p t = 0.
Proof.
  induction 1 as [|e t He _ IH]; [done|].
  by rewrite count_cons, He, IH.
Qed.

Lemma value_preceded_by {A} (t : list event) (r : A * B * list event) :
  value (preceded_by t r) = value r.
Proof. by destruct r as [[] ?]. Qed.

Lemma events_preceded_by {A} (t : list event) (r : A * B * list event) :
  events (preceded_by t r) = t ++ events r.
Proof. by destruct r as [[] ?]. Qed.

End Traces.

(** ** Describe *)

Section DescribeProperties.
Context {L : GoLibs} {B : Type} {Client : S3Client B}.

(** C5: when the location lookup succeeds, [Describe] returns no error and
    a [BucketDetails] whose ARN is "arn:", the partition, ":s3:::" and the
    bucket name, whose FIPS endpoint is "s3-fips.", the resolved region and
    ".amazonaws.com", and whose [Tags], [Encryption] and [Policy] are
    left at their zero values. *)
Theorem Describe_arn_and_fips_endpoint (bucketName partition : string) (b b' : B)
    (LocationConstraint : option string) :
  GetBucketLocation bucketName b = (inr LocationConstraint, b') →
  ∃ details region,
    value (Describe bucketName partition b) = (details, None) ∧
    region = match LocationConstraint with Some r => r | None => "us-east-1" end ∧
    BucketName details = bucketName ∧
    Region details = region ∧
    ARN details = "arn:" +:+ partition +:+ ":s3:::" +:+ bucketName ∧
    FIPSEndpoint details = "s3-fips." +:+ region +:+ ".amazonaws.com" ∧
    Tags details = ∅ ∧ Encryption details = "" ∧ Policy details = "".
Proof.
  intros Hloc. unfold Describe, s3svc_GetBucketLocation, invoke, mbind, M_bind.
  rewrite Hloc. cbn.
  eexists _, _. repeat split; reflexivity.
Qed.

(** C6, as amended: a lookup that succeeds with a nil location constraint
    resolves the region to "us-east-1", and the FIPS endpoint follows it; a
    location constraint that is not nil is used as it is. *)
Theorem Describe_default_region (bucketName partition : string) (b b' : B)
    (LocationConstraint : option string) :
  GetBucketLocation bucketName b = (inr LocationConstraint, b') →
  let details := (value (Describe bucketName partition b)).1 in
  (LocationConstraint = None →
     Region details = "us-east-1" ∧
     FIPSEndpoint details = "s3-fips.us-east-1.amazonaws.com") ∧
  (∀ region, LocationConstraint = Some region →
     Region details = region ∧
     FIPSEndpoint details = "s3-fips." +:+ region +:+ ".amazonaws.com").
Proof.
  intros Hloc. unfold Describe, s3svc_GetBucketLocation, invoke, mbind, M_bind.
  rewrite Hloc. cbn. split.
  - by intros ->.
  - by intros region ->.
Qed.

End DescribeProperties.

Lemma Describe_arn_and_fips_endpoint_witness :
  ∃ details,
    value (Describe (L := Fake.libs) (Client := Fake.client Fake.happy) "my-bucket" "aws-us-gov" 0)
      = (details, None) ∧
    ARN details = "arn:aws-us-gov:s3:::my-bucket" ∧
    FIPSEndpoint details = "s3-fips.us-east-1.amazonaws.com".
Proof.
  destruct (Describe_arn_and_fips_endpoint (L := Fake.libs) (Client := Fake.client Fake.happy)
              "my-bucket" "aws-us-gov" 0 1 None eq_refl)
    as (details & region & Hv & -> & _ & _ & Harn & Hfips & _).
  exists details. repeat split; assumption.
Defined.

(** C6 as stated fails: a backend that answers the lookup with a location
    constraint pointing to the empty string leaves the region empty. *)
Lemma Describe_empty_location_counterexample :
  let result := value (Describe (L := Fake.libs) (Client := Fake.client Fake.emptyLocation)
                         "my-bucket" "aws" 0) in
  GetBucketLocation (S3Client := Fake.client (L := Fake.libs) Fake.emptyLocation) "my-bucket" 0
  = (inr (Some ""), 1) ∧
  result.2 = None ∧
  Region result.1 = "" ∧
  Region result.1 ≠ "us-east-1" ∧
  FIPSEndpoint result.1 = "s3-fips..amazonaws.com".
Proof. cbn. repeat split. discriminate. Qed.

Lemma Describe_default_region_witness :
  let details :=
    (value (Describe (L := Fake.libs) (Client := Fake.client Fake.happy) "my-bucket" "aws" 0)).1 in
  Region details = "us-east-1" ∧
  FIPSEndpoint details = "s3-fips.us-east-1.amazonaws.com".
Proof.
  exact (proj1 (Describe_default_region (L := Fake.libs) (Client := Fake.client Fake.happy)
                  "my-bucket" "aws" 0 1 None eq_refl) eq_refl).
Defined.

(** ** Modify *)

(** C9: [Modify] returns nil for every bucket name and every
    [BucketDetails], calls nothing and leaves the backend as it was. *)
Theorem Modify_is_a_no_op {L : GoLibs} {B : Type} {Client : S3Client B}
    (bucketName : string) (bucketDetails : BucketDetails) (b : B) :
  value (Modify bucketName bucketDetails b) = None ∧
  events (Modify bucketName bucketDetails b) = [] ∧
  final (Modify bucketName bucketDetails b) = b.
Proof. by unfold Modify. Qed.

(** ** Delete *)

Section DeleteProperties.
Context {L : GoLibs} {B : Type} {Client : S3Client B}.

Lemma isNoSuchBucketError_absent (e : error) :
  bucket_absent e → isNoSuchBucketError e = Returns true.
Proof. induction 1 as [message|code message cause bucket key _ IH]; [done|exact IH]. Qed.

Lemma isNoSuchBucketError_aggregate (code message : string)
    (causes : list (s3manager_Error error)) :
  1 < length causes → isNoSuchBucketError (BatchError code message causes) = Returns false.
Proof.
  intros Hlen. cbn. unfold isBatchDeleteNoBucketError_on.
  by destruct (Nat.ltb_spec 1 (length causes)); [|lia].
Qed.

Lemma isNoSuchBucketError_batch (code message : string)
    (causes : list (s3manager_Error error)) :
  isNoSuchBucketError (BatchError code message causes)
  = isBatchDeleteNoBucketError (BatchError code message causes).
Proof. reflexivity. Qed.

Lemma handleDeleteError_absent (r : option error) :
  ok_or_absent r →
  match r with Some e => handleDeleteError e | None => Returns None end = Returns None.
Proof.
  intros Hr. destruct r as [e|]; [|done].
  unfold handleDeleteError. by rewrite isNoSuchBucketError_absent by auto.
Qed.

Lemma handleDeleteError_aggregate (code message : string)
    (causes : list (s3manager_Error error)) :
  1 < length causes →
  handleDeleteError (BatchError code message causes)
  = Returns (Some (BatchError code message causes)).
Proof.
  intros Hlen. unfold handleDeleteError.
  by rewrite isNoSuchBucketError_aggregate.
Qed.

(** C4: [Delete] returns nil when the bulk deletion of the objects (if it
    is asked for, and then run on the client of the SDK) and the deletion
    of the bucket either succeed or report the bucket absent, directly by a
    NoSuchBucket code or wrapped in a batch error with exactly one cause; a
    batch error with more than one cause, from either call, is returned to
    the caller. *)
Theorem Delete_absent_bucket (bucketName : string) (deleteObjects : bool) (b : B) :
  let b1 := if deleteObjects then (BatchDelete bucketName b).2 else b in
  let contents_ok :=
    deleteObjects = true → is_s3_S3 = true ∧ ok_or_absent (BatchDelete bucketName b).1 in
  (contents_ok →
   ok_or_absent (DeleteBucket bucketName b1).1 →
   value (Delete bucketName deleteObjects b) = Returns None) ∧
  (∀ code message causes,
     1 < length causes →
     (deleteObjects = true → is_s3_S3 = true →
      (BatchDelete bucketName b).1 = Some (BatchError code message causes) →
      value (Delete bucketName deleteObjects b)
      = Returns (Some (BatchError code message causes))) ∧
     (contents_ok →
      (DeleteBucket bucketName b1).1 = Some (BatchError code message causes) →
      value (Delete bucketName deleteObjects b)
      = Returns (Some (BatchError code message causes)))).
Proof.
  intros b1 contents_ok.
  assert (Hreach : contents_ok →
            Delete bucketName deleteObjects b
            = preceded_by (if deleteObjects then [EvBatchDelete bucketName] else [])
                (match (DeleteBucket bucketName b1).1 with
                 | Some e => handleDeleteError e
                 | None => Returns None
                 end, (DeleteBucket bucketName b1).2, [EvDeleteBucket bucketName])).
  { intros Hc. subst b1 contents_ok. unfold Delete, deleteBucketContents, mbind, M_bind,
      s3manager_BatchDelete, s3svc_DeleteBucket, invoke, mret, M_ret.
    destruct deleteObjects.
    - destruct (Hc eq_refl) as [-> Hok].
      destruct (BatchDelete bucketName b) as [r b2] eqn:Hb. cbn in Hok |- *.
      rewrite (handleDeleteError_absent r) by auto. cbn.
      by destruct (DeleteBucket bucketName b2) as [r' b3].
    - cbn. by destruct (DeleteBucket bucketName b) as [r' b3]. }
  split; [|intros code message causes Hlen; split].
  - intros Hc Hd. rewrite Hreach by done. rewrite value_preceded_by. unfold value. cbn.
    by apply handleDeleteError_absent.
  - intros -> Hsdk Hbatch.
    unfold Delete, deleteBucketContents, mbind, M_bind, s3manager_BatchDelete, invoke,
      mret, M_ret. rewrite Hsdk.
    destruct (BatchDelete bucketName b) as [r b2]. cbn in Hbatch. subst r. cbn.
    by rewrite handleDeleteError_aggregate.
  - intros Hc Hd. rewrite Hreach by done. rewrite value_preceded_by. unfold value. cbn.
    rewrite Hd. by apply handleDeleteError_aggregate.
Qed.

End DeleteProperties.

Lemma Delete_absent_bucket_witness :
  value (Delete (L := Fake.libs) (Client := Fake.sdk_client Fake.absent) "my-bucket" true 0)
  = Returns None ∧
  value (Delete (L := Fake.libs) (Client := Fake.sdk_client Fake.batchFails) "my-bucket" true 0)
  = Returns (Some (Fake.batchError Fake.twoCauses)).
Proof.
  split.
  - apply (Delete_absent_bucket (L := Fake.libs) (Client := Fake.sdk_client Fake.absent)
             "my-bucket" true 0).
    + intros _. split; [reflexivity|]. intros e [= <-]. apply absent_wrapped, absent_coded.
    + intros e [= <-]. apply absent_coded.
  - refine (proj1 (proj2 (Delete_absent_bucket (L := Fake.libs)
                            (Client := Fake.sdk_client Fake.batchFails) "my-bucket" true 0)
                     "BatchedDeleteIncomplete" "some objects have failed to be deleted."
                     Fake.twoCauses _)
              eq_refl eq_refl eq_refl).
    cbn. lia.
Defined.

(** ** Create, the public-access reconciler and the policy applier *)

Section CreateProperties.
Context {L : GoLibs} {B : Type} {Client : S3Client B}.

Lemma probe_rounds_S (bucketName : string) (k : nat) :
  probe_rounds bucketName (S k)
  = EvSleep 1 :: EvGetPublicAccessBlock bucketName :: probe_rounds bucketName k.
Proof. reflexivity. Qed.

Lemma count_probe_rounds (bucketName : string) (k : nat) :
  count is_GetPublicAccessBlock (probe_rounds bucketName k) = k ∧
  count is_Sleep (probe_rounds bucketName k) = k ∧
  count is_DeletePublicAccessBlock (probe_rounds bucketName k) = 0 ∧
  count is_PutBucketPolicy (probe_rounds bucketName k) = 0.
Proof.
  induction k as [|k (IH1 & IH2 & IH3 & IH4)]; [done|].
  rewrite probe_rounds_S, !count_cons, IH1, IH2, IH3, IH4. done.
Qed.

Lemma probe_events (bucketName : string) (b : B) :
  events (checkIsPublicAccessBlockDeleted bucketName b) = [EvGetPublicAccessBlock bucketName].
Proof.
  unfold checkIsPublicAccessBlockDeleted, mbind, M_bind, s3svc_GetPublicAccessBlock, invoke.
  by destruct (GetPublicAccessBlock bucketName b) as [r b'].
Qed.

Lemma probe_unconfirmed (bucketName : string) (b : B) :
  (GetPublicAccessBlock bucketName b).1 = None →
  value (checkIsPublicAccessBlockDeleted bucketName b) = (false, None).
Proof.
  unfold checkIsPublicAccessBlockDeleted, mbind, M_bind, s3svc_GetPublicAccessBlock, invoke.
  destruct (GetPublicAccessBlock bucketName b) as [r b']. by intros [= ->].
Qed.

Lemma confirm_loop_events (bucketName : string) (isDeleted : bool) (retries : nat) (b : B) :
  ∃ k, k ≤ maxRetries - retries ∧
       events (confirm_loop bucketName isDeleted retries b) = probe_rounds bucketName k.
Proof.
  funelim (confirm_loop bucketName isDeleted retries b).
  - exists 0. split; [lia|reflexivity].
  - exists 0. split; [lia|reflexivity].
  - exists 1. split; [lia|].
    change ((checkIsPublicAccessBlockDeleted bucketName b).2)
      with (events (checkIsPublicAccessBlockDeleted bucketName b)).
    by rewrite probe_events.
  - destruct H as (k & Hk & Hev). exists (S k). split; [lia|].
    rewrite events_preceded_by, Hev.
    change ((checkIsPublicAccessBlockDeleted bucketName b).2)
      with (events (checkIsPublicAccessBlockDeleted bucketName b)).
    by rewrite probe_events.
Qed.

Lemma confirm_loop_unconfirmed (bucketName : string) (isDeleted : bool) (retries : nat) (b : B) :
  (∀ b0, (GetPublicAccessBlock bucketName b0).1 = None) →
  value (confirm_loop bucketName isDeleted retries b) = None ∧
  events (confirm_loop bucketName isDeleted retries b)
  = probe_rounds bucketName (if isDeleted then 0 else maxRetries - retries).
Proof.
  intros Hprobe.
  funelim (confirm_loop bucketName isDeleted retries b).
  - done.
  - replace (maxRetries - retries) with 0 by lia. done.
  - pose proof (probe_unconfirmed bucketName b (Hprobe b)) as Hv.
    unfold value in Hv.
    match goal with Hc : (checkIsPublicAccessBlockDeleted _ _).1 = _ |- _ =>
      rewrite Hc in Hv end.
    discriminate.
  - pose proof (probe_unconfirmed bucketName b (Hprobe b)) as Hv.
    unfold value in Hv.
    match goal with Hc : (checkIsPublicAccessBlockDeleted _ _).1 = _ |- _ =>
      rewrite Hc in Hv end.
    injection Hv as ->.
    match goal with IH : _ → _ ∧ _ |- _ => destruct (IH Hprobe) as [IHv IHe] end.
    rewrite value_preceded_by, events_preceded_by, IHv, IHe.
    change ((checkIsPublicAccessBlockDeleted bucketName b).2)
      with (events (checkIsPublicAccessBlockDeleted bucketName b)).
    rewrite probe_events. split; [done|].
    replace (maxRetries - retries) with (S (maxRetries - (retries + 1))) by lia.
    by rewrite probe_rounds_S.
Qed.

Lemma confirm_loop_spec (bucketName : string) (isDeleted : bool) (retries : nat) (b : B) :
  let r := confirm_loop bucketName isDeleted retries b in
  let probe i := Nat.iter i (probe_again bucketName) (isDeleted, None, b) in
  ∃ k, k ≤ maxRetries - retries ∧
    events r = probe_rounds bucketName k ∧
    (∀ i, i < k → (probe i).1 = (false, None)) ∧
    (((probe k).1 = (true, None) ∧ value r = None) ∨
     (∃ d e, (probe k).1 = (d, Some e) ∧ value r = Some e) ∨
     ((probe k).1 = (false, None) ∧ k = maxRetries - retries ∧ value r = None)).
Proof.
  funelim (confirm_loop bucketName isDeleted retries b); cbv zeta.
  - exists 0. repeat split; [lia|intros; lia|by left].
  - exists 0. repeat split; [lia|intros; lia|]. right; right. repeat split. lia.
  - exists 1. change ((checkIsPublicAccessBlockDeleted bucketName b).2)
      with (events (checkIsPublicAccessBlockDeleted bucketName b)).
    rewrite probe_events. repeat split; [lia| |].
    + intros i Hi. by replace i with 0 by lia.
    + right; left. exists b1, err. split; [|done].
      change (Nat.iter 1 (probe_again bucketName) (false, None, b))
        with ((checkIsPublicAccessBlockDeleted bucketName b).1).
      match goal with Hc : (checkIsPublicAccessBlockDeleted _ _).1 = _ |- _ => by rewrite Hc end.
  - match goal with IH : ∃ k, _ |- _ =>
      destruct IH as (k & Hk & Hev & Hunconfirmed & Hlast) end.
    assert (Hshift : ∀ i, Nat.iter (S i) (probe_again bucketName) (false, None, b)
                          = Nat.iter i (probe_again bucketName) (isDeleted', None, b')).
    { intros i. rewrite Nat.iter_succ_r. unfold probe_again at 2. cbn [snd].
      match goal with Hc : (checkIsPublicAccessBlockDeleted _ _).1 = _ |- _ =>
        by rewrite Hc end. }
    exists (S k). rewrite events_preceded_by, value_preceded_by, Hev, !Hshift.
    change ((checkIsPublicAccessBlockDeleted bucketName b).2)
      with (events (checkIsPublicAccessBlockDeleted bucketName b)).
    rewrite probe_events. repeat split; [lia| |].
    + intros [|i] Hi; [done|]. rewrite Hshift. apply Hunconfirmed. lia.
    + destruct Hlast as [?|[?|(? & ? & ?)]]; [by left|by right; left|].
      right; right. repeat split; [done|lia|done].
Qed.

Lemma Policy_parsed_nonempty `{!GoLibsLaws L} (bucketDetails : BucketDetails)
    (policy : bucketPolicy) :
  json_Unmarshal_policy (Policy bucketDetails) = inr policy →
  String.eqb (Policy bucketDetails) "" = false.
Proof.
  intros Hparse. destruct (String.eqb_spec (Policy bucketDetails) "") as [Heq|]; [|done].
  rewrite Heq in Hparse. by destruct (json_Unmarshal_empty _ Hparse).
Qed.

Lemma matches_publicAccessPolicy_spec (statement : bucketPolicyStatement) :
  matches_publicAccessPolicy statement = true ↔ public_read statement.
Proof.
  unfold matches_publicAccessPolicy, public_read. cbn.
  rewrite !andb_true_iff, !bool_decide_eq_true. tauto.
Qed.

(** The reconciler on a policy that parses to at most one statement, none
    of which is the public-read statement: nothing is called. *)
Lemma checkDeletePublicAccessBlock_private `{!GoLibsLaws L} (bucketDetails : BucketDetails)
    (bucketName : string) (policy : bucketPolicy) (b : B) :
  json_Unmarshal_policy (Policy bucketDetails) = inr policy →
  length (Statement policy) ≤ 1 →
  existsb matches_publicAccessPolicy (Statement policy) = false →
  checkDeletePublicAccessBlock bucketDetails bucketName b = (None, b, []).
Proof.
  intros Hparse Hlen Hnone. unfold checkDeletePublicAccessBlock.
  rewrite (Policy_parsed_nonempty _ _ Hparse), Hparse, Hnone.
  by destruct (Nat.ltb_spec 1 (length (Statement policy))); [lia|].
Qed.

(** The reconciler on a policy with more than one statement: an error,
    and nothing is called. *)
Lemma checkDeletePublicAccessBlock_many `{!GoLibsLaws L} (bucketDetails : BucketDetails)
    (bucketName : string) (policy : bucketPolicy) (b : B) :
  json_Unmarshal_policy (Policy bucketDetails) = inr policy →
  1 < length (Statement policy) →
  ∃ err, checkDeletePublicAccessBlock bucketDetails bucketName b = (Some err, b, []).
Proof.
  intros Hparse Hlen. unfold checkDeletePublicAccessBlock.
  rewrite (Policy_parsed_nonempty _ _ Hparse), Hparse.
  destruct (Nat.ltb_spec 1 (length (Statement policy))); [|lia]. by eexists.
Qed.

(** The events of the reconciler, whatever the policy and the backend:
    none, or the deletion call alone, or the deletion call, a first probe
    and at most [maxRetries] rounds of sleeping and probing. *)
Lemma checkDeletePublicAccessBlock_events (bucketDetails : BucketDetails)
    (bucketName : string) (b : B) :
  let t := events (checkDeletePublicAccessBlock bucketDetails bucketName b) in
  t = [] ∨
  t = [EvDeletePublicAccessBlock bucketName] ∨
  ∃ k, k ≤ maxRetries ∧
       t = EvDeletePublicAccessBlock bucketName :: EvGetPublicAccessBlock bucketName
             :: probe_rounds bucketName k.
Proof.
  unfold checkDeletePublicAccessBlock.
  destruct (String.eqb _ _); [by left|].
  destruct (json_Unmarshal_policy _) as [err|policy]; [by left|].
  destruct (1 <? _); [by left|].
  destruct (existsb _ _); [|by left].
  unfold mbind, M_bind, s3svc_DeletePublicAccessBlock, invoke.
  destruct (DeletePublicAccessBlock bucketName b) as [[e|] b1]; [by right; left|].
  right; right.
  pose proof (probe_events bucketName b1) as Hprobe.
  destruct (checkIsPublicAccessBlockDeleted bucketName b1) as [[[isDeleted [e|]] b2] t];
    cbn in Hprobe; subst t.
  - exists 0. split; [unfold maxRetries; lia|]. reflexivity.
  - destruct (confirm_loop_events bucketName isDeleted 0 b2) as (k & Hk & Hev).
    exists k. split; [lia|]. cbv beta iota zeta.
    rewrite !events_preceded_by, Hev. done.
Qed.

(** The reconciler on a policy whose single statement is the public-read
    statement: the deletion call comes first and is issued once. *)
Lemma checkDeletePublicAccessBlock_public `{!GoLibsLaws L} (bucketDetails : BucketDetails)
    (bucketName : string) (policy : bucketPolicy) (statement : bucketPolicyStatement) (b : B) :
  json_Unmarshal_policy (Policy bucketDetails) = inr policy →
  Statement policy = [statement] →
  public_read statement →
  ∃ rest, events (checkDeletePublicAccessBlock bucketDetails bucketName b)
          = EvDeletePublicAccessBlock bucketName :: rest ∧
          count is_DeletePublicAccessBlock rest = 0.
Proof.
  intros Hparse Hst Hpub.
  pose proof (checkDeletePublicAccessBlock_events bucketDetails bucketName b) as Hev.
  assert (events (checkDeletePublicAccessBlock bucketDetails bucketName b) ≠ []) as Hne.
  { unfold checkDeletePublicAccessBlock.
    rewrite (Policy_parsed_nonempty _ _ Hparse), Hparse, Hst. cbn.
    apply matches_publicAccessPolicy_spec in Hpub. rewrite Hpub. cbn.
    unfold mbind, M_bind, s3svc_DeletePublicAccessBlock, invoke.
    destruct (DeletePublicAccessBlock bucketName b) as [r b1].
    cbv beta iota zeta. by rewrite events_preceded_by. }
  cbn in Hev. destruct Hev as [Hev|[Hev|(k & _ & Hev)]]; [done|..]; rewrite Hev.
  - by exists [].
  - eexists. split; [done|]. rewrite count_cons.
    by destruct (count_probe_rounds bucketName k) as (_ & _ & -> & _).
Qed.


Lemma bind_run {A C} (m : M A) (k : A → M C) (b : B) :
  (m ≫= k) b = preceded_by (events (m b)) (k (value (m b)) (final (m b))).
Proof. unfold mbind, M_bind. by destruct (m b) as [[a b'] t]. Qed.

Lemma invoke_run {R} (e : event) (method : B → R * B) (b : B) :
  invoke e method b = ((method b).1, (method b).2, [e]).
Proof. unfold invoke. by destruct (method b). Qed.

(** What [Create] does after the bucket is created, tagged and, if asked
    for, encrypted: the two reconciliation procedures. *)
Lemma Create_provisioned (bucketName : string) (bucketDetails : BucketDetails)
    (b b3 : B) (Location : option string) :
  provisioned bucketName bucketDetails b b3 Location →
  let r1 := checkDeletePublicAccessBlock bucketDetails bucketName b3 in
  let r2 := putBucketPolicyWithRetries bucketDetails bucketName (final r1) in
  ∃ rest,
    Forall (λ e, is_provisioning e = true) rest ∧
    events (Create bucketName bucketDetails b)
    = EvCreateBucket bucketName (ObjectOwnership bucketDetails) :: rest ++ events r1
        ++ match value r1 with Some _ => [] | None => events r2 end ∧
    value (Create bucketName bucketDetails b)
    = match value r1 with
      | Some e => ("", Some e)
      | None => match value r2 with
                | Some e => ("", Some e)
                | None => (default "" Location, None)
                end
      end.
Proof.
  intros (b1 & b2 & Hcreate & Htag & Henc) r1 r2. subst r1 r2.
  unfold Create, mbind, M_bind, s3svc_CreateBucket, s3svc_PutBucketTagging,
    s3svc_PutBucketEncryption, invoke, mret, M_ret.
  rewrite Hcreate. cbv beta iota zeta. rewrite Htag. cbv beta iota zeta.
  destruct (0 <? String.length (Encryption bucketDetails)).
  - destruct Henc as (config & -> & Hput). rewrite Hput. cbv beta iota zeta.
    exists [EvPutBucketTagging bucketName (map_to_list (Tags bucketDetails));
            EvPutBucketEncryption bucketName config].
    split; [by repeat constructor|].
    unfold preceded_by, value, events, final. cbn [fst snd fmap option_fmap option_map].
    destruct (checkDeletePublicAccessBlock bucketDetails bucketName b3) as [[[e1|] bf1] t1];
      cbn [fst snd]; [by rewrite ?app_nil_r|].
    destruct (putBucketPolicyWithRetries bucketDetails bucketName bf1) as [[[e2|] bf2] t2];
      cbn [fst snd]; by rewrite ?app_nil_r.
  - subst b3. cbv beta iota zeta.
    exists [EvPutBucketTagging bucketName (map_to_list (Tags bucketDetails))].
    split; [by repeat constructor|].
    unfold preceded_by, value, events, final. cbn [fst snd].
    destruct (checkDeletePublicAccessBlock bucketDetails bucketName b2) as [[[e1|] bf1] t1];
      cbn [fst snd]; [by rewrite ?app_nil_r|].
    destruct (putBucketPolicyWithRetries bucketDetails bucketName bf1) as [[[e2|] bf2] t2];
      cbn [fst snd]; by rewrite ?app_nil_r.
Qed.

(** The calls of [Create] before the reconciliation procedures: the
    creation call first, then tagging and encryption calls only. *)
Lemma Create_events (bucketName : string) (bucketDetails : BucketDetails) (b : B) :
  ∃ rest,
    Forall (λ e, is_provisioning e = true) rest ∧
    ((events (Create bucketName bucketDetails b)
      = EvCreateBucket bucketName (ObjectOwnership bucketDetails) :: rest ∧
      ∃ e, value (Create bucketName bucketDetails b) = ("", Some e)) ∨
     ∃ b3 Location, provisioned bucketName bucketDetails b b3 Location).
Proof.
  unfold Create, mbind, M_bind, s3svc_CreateBucket, s3svc_PutBucketTagging,
    s3svc_PutBucketEncryption, invoke, mret, M_ret.
  destruct (CreateBucket bucketName (ObjectOwnership bucketDetails) b)
    as [[e|Location] b1] eqn:Hcreate.
  { exists []. split; [done|]. left. split; [done|]. by eexists. }
  cbv beta iota zeta.
  destruct (PutBucketTagging bucketName (map_to_list (Tags bucketDetails)) b1)
    as [[e|] b2] eqn:Htag.
  { exists [EvPutBucketTagging bucketName (map_to_list (Tags bucketDetails))].
    split; [by repeat constructor|]. left. split; [done|]. by eexists. }
  cbv beta iota zeta.
  destruct (0 <? String.length (Encryption bucketDetails)) eqn:Hlen.
  - destruct (json_Unmarshal_encryption (Encryption bucketDetails)) as [e|config] eqn:Hjson.
    { exists [EvPutBucketTagging bucketName (map_to_list (Tags bucketDetails))].
      split; [by repeat constructor|]. left. split; [done|]. by eexists. }
    destruct (PutBucketEncryption bucketName config b2) as [[e|] b3] eqn:Hput.
    { exists [EvPutBucketTagging bucketName (map_to_list (Tags bucketDetails));
              EvPutBucketEncryption bucketName config].
      split; [by repeat constructor|]. left. split; [done|]. by eexists. }
    exists []. split; [done|]. right. exists b3. exists Location. exists b1. exists b2.
    rewrite Hlen, Hjson. repeat split; [done..|]. by exists config.
  - exists []. split; [done|]. right. exists b2. exists Location. exists b1. exists b2.
    by rewrite Hlen.
Qed.


Lemma isAccessDeniedException_spec (err : error) :
  isAccessDeniedException err = true ↔ access_denied err.
Proof.
  unfold isAccessDeniedException, access_denied.
  destruct (as_awserr err) as [[code message]|].
  - rewrite String.eqb_eq. split.
    + intros ->. by exists message.
    + by intros (message' & [= -> _]).
  - split; [done|]. by intros (message & ?).
Qed.

Lemma putPolicy_loop_spec (bucket policy : string) (err : option error) (retries : nat) (b : B) :
  let r := putPolicy_loop bucket policy err retries b in
  let response i := Nat.iter i (PutBucketPolicy_again bucket policy) (err, b) in
  ∃ n, n ≤ maxRetries - retries ∧
    events r = replicate n (EvPutBucketPolicy bucket policy) ∧
    (∀ i, i < n → ∃ e, (response i).1 = Some e ∧ access_denied e) ∧
    value r = (response n).1 ∧
    ((response n).1 = None ∨
     (∃ e, (response n).1 = Some e ∧ ¬ access_denied e) ∨
     n = maxRetries - retries).
Proof.
  funelim (putPolicy_loop bucket policy err retries b); cbv zeta.
  - exists 0. repeat split; [lia|intros; lia|by left].
  - exists 0. repeat split; [lia|intros; lia|right; right; lia].
  - exists 0. repeat split; [lia|intros; lia|]. right; left. exists e. split; [done|].
    match goal with Hd : isAccessDeniedException e = false |- _ =>
      rewrite <- isAccessDeniedException_spec, Hd end. done.
  - match goal with IH : ∃ n, _ |- _ =>
      destruct IH as (n & Hn & Hev & Hden & Hval & Hstop) end.
    assert (Hshift : ∀ i, Nat.iter (S i) (PutBucketPolicy_again bucket policy) (Some e, b)
                          = Nat.iter i (PutBucketPolicy_again bucket policy) (err', b')).
    { intros i. rewrite Nat.iter_succ_r. unfold PutBucketPolicy_again at 2. cbn [snd].
      match goal with Hp : PutBucketPolicy _ _ _ = _ |- _ => by rewrite Hp end. }
    exists (S n). rewrite events_preceded_by, value_preceded_by, Hev, Hval, !Hshift.
    repeat split; [lia| |].
    + intros [|i] Hi.
      * exists e. split; [done|]. by apply isAccessDeniedException_spec.
      * rewrite Hshift. apply Hden. lia.
    + destruct Hstop as [?|[?|?]]; [by left|by right; left|right; right; lia].
Qed.

Lemma putPolicy_loop_only_puts (bucket policy : string) (err : option error)
    (retries : nat) (b : B) :
  Forall (λ e, e = EvPutBucketPolicy bucket policy)
    (events (putPolicy_loop bucket policy err retries b)).
Proof.
  destruct (putPolicy_loop_spec bucket policy err retries b) as (n & _ & -> & _).
  apply Forall_replicate. done.
Qed.

(** Every call of the policy applier is a [PutBucketPolicy]. *)
Lemma putBucketPolicyWithRetries_only_puts (bucketDetails : BucketDetails)
    (bucketName : string) (b : B) :
  Forall (λ e, is_PutBucketPolicy e = true)
    (events (putBucketPolicyWithRetries bucketDetails bucketName b)).
Proof.
  unfold putBucketPolicyWithRetries.
  destruct (_ =? _); [by constructor|].
  destruct (template_Parse _) as [e|tmpl]; [by constructor|].
  destruct (template_Execute _ _) as [e|policy]; [by constructor|].
  rewrite bind_run, events_preceded_by. apply Forall_app. split.
  - unfold s3svc_PutBucketPolicy. rewrite invoke_run. by repeat constructor.
  - eapply Forall_impl; [apply putPolicy_loop_only_puts|]. by intros ? ->.
Qed.


(** What the reconciler does once the deletion call has succeeded. *)
Lemma checkDeletePublicAccessBlock_poll `{!GoLibsLaws L} (bucketDetails : BucketDetails)
    (bucketName : string) (policy : bucketPolicy) (statement : bucketPolicyStatement)
    (b b1 : B) :
  json_Unmarshal_policy (Policy bucketDetails) = inr policy →
  Statement policy = [statement] →
  public_read statement →
  DeletePublicAccessBlock bucketName b = (None, b1) →
  let r := checkDeletePublicAccessBlock bucketDetails bucketName b in
  let probe i :=
    Nat.iter i (probe_again bucketName) (checkIsPublicAccessBlockDeleted bucketName b1).1 in
  ∃ retries, retries ≤ maxRetries ∧
    events r = EvDeletePublicAccessBlock bucketName :: EvGetPublicAccessBlock bucketName
                 :: probe_rounds bucketName retries ∧
    (∀ i, i < retries → (probe i).1 = (false, None)) ∧
    (((probe retries).1 = (true, None) ∧ value r = None) ∨
     (∃ d e, (probe retries).1 = (d, Some e) ∧ value r = Some e) ∨
     ((probe retries).1 = (false, None) ∧ retries = maxRetries ∧ value r = None)).
Proof.
  intros Hparse Hst Hpub Hdel r probe. subst r probe.
  unfold checkDeletePublicAccessBlock.
  rewrite (Policy_parsed_nonempty _ _ Hparse), Hparse, Hst.
  destruct (Nat.ltb_spec 1 (length [statement])); [cbn in *; lia|].
  cbn [existsb]. apply matches_publicAccessPolicy_spec in Hpub. rewrite Hpub.
  cbn [orb]. unfold mbind, M_bind, s3svc_DeletePublicAccessBlock, invoke.
  rewrite Hdel. cbv beta iota zeta.
  pose proof (probe_events bucketName b1) as Hfirst.
  destruct (checkIsPublicAccessBlockDeleted bucketName b1) as [[[isDeleted [e|]] b2] t].
  - cbn in Hfirst. subst t. exists 0. repeat split; [lia|intros; lia|].
    right; left. by exists isDeleted, e.
  - cbn in Hfirst. subst t. cbn [fst].
    destruct (confirm_loop_spec bucketName isDeleted 0 b2)
      as (k & Hk & Hev & Hunconfirmed & Hlast).
    exists k. rewrite !events_preceded_by, !value_preceded_by, Hev.
    repeat split; [lia|done|].
    destruct Hlast as [?|[?|(? & ? & ?)]]; [by left|by right; left|].
    right; right. repeat split; [done|lia|done].
Qed.

Lemma count_provisioning (p : event → bool) (t : list event) :
  (∀ e, is_provisioning e = true → p e = false) →
  Forall (λ e, is_provisioning e = true) t → count p t = 0.
Proof.
  intros Hp Ht. apply count_zero_Forall. eapply Forall_impl; [exact Ht|]. exact Hp.
Qed.

Lemma count_puts (p : event → bool) (t : list event) :
  (∀ e, is_PutBucketPolicy e = true → p e = false) →
  Forall (λ e, is_PutBucketPolicy e = true) t → count p t = 0.
Proof.
  intros Hp Ht. apply count_zero_Forall. eapply Forall_impl; [exact Ht|]. exact Hp.
Qed.

(** C1, as amended: with a policy that parses to more than one statement,
    [Create] returns an error; it calls [CreateBucket] first, as always,
    then only [PutBucketTagging] and [PutBucketEncryption]; it makes no
    [DeletePublicAccessBlock], [GetPublicAccessBlock] or [PutBucketPolicy]
    call. *)
Theorem Create_rejects_many_statements `{!GoLibsLaws L} (bucketName : string)
    (bucketDetails : BucketDetails) (policy : bucketPolicy) (b : B) :
  json_Unmarshal_policy (Policy bucketDetails) = inr policy →
  1 < length (Statement policy) →
  let r := Create bucketName bucketDetails b in
  ∃ err rest,
    value r = ("", Some err) ∧
    events r = EvCreateBucket bucketName (ObjectOwnership bucketDetails) :: rest ∧
    Forall (λ e, is_PutBucketTagging e || is_PutBucketEncryption e = true) rest ∧
    count is_DeletePublicAccessBlock (events r) = 0 ∧
    count is_GetPublicAccessBlock (events r) = 0 ∧
    count is_PutBucketPolicy (events r) = 0.
Proof.
  intros Hparse Hlen r.
  assert (∃ err rest, value r = ("", Some err) ∧
            events r = EvCreateBucket bucketName (ObjectOwnership bucketDetails) :: rest ∧
            Forall (λ e, is_provisioning e = true) rest) as (err & rest & Hv & Hev & Hrest).
  { destruct (Create_events bucketName bucketDetails b)
      as (rest & Hrest & [[Hev [err Hv]]|(b3 & Location & Hprov)]).
    - by exists err, rest.
    - destruct (Create_provisioned _ _ _ _ _ Hprov) as (rest' & Hrest' & Hev & Hv).
      destruct (checkDeletePublicAccessBlock_many bucketDetails bucketName policy b3
                  Hparse Hlen) as (err & Hcheck).
      rewrite Hcheck in Hev, Hv. cbn in Hev, Hv. rewrite app_nil_r in Hev.
      by exists err, rest'. }
  exists err, rest. repeat split; [done..| | |]; rewrite Hev, count_cons;
    cbn; apply count_provisioning; try done; by intros [].
Qed.

(** C3, as amended: the reconciler probes at most 11 times, a first
    probe and at most 10 retries, and sleeps at most 10 times.  Once the
    deletion call has succeeded, every retry is a sleep of one second
    followed by a probe; every probe before the last answered not yet
    confirmed; and the last probe either confirmed the deletion, or failed
    with an error, which is returned, or was the 11th, in which case nil is
    returned.  In particular, when no probe ever confirms, the reconciler
    makes all 11 probes and 10 sleeps and returns nil. *)
Theorem confirmation_poll_is_bounded `{!GoLibsLaws L} (bucketDetails : BucketDetails)
    (bucketName : string) (b : B) :
  let r := checkDeletePublicAccessBlock bucketDetails bucketName b in
  count is_GetPublicAccessBlock (events r) ≤ 11 ∧
  count is_Sleep (events r) ≤ 10 ∧
  (∀ policy statement b1,
     json_Unmarshal_policy (Policy bucketDetails) = inr policy →
     Statement policy = [statement] →
     public_read statement →
     DeletePublicAccessBlock bucketName b = (None, b1) →
     let probe i :=
       Nat.iter i (probe_again bucketName) (checkIsPublicAccessBlockDeleted bucketName b1).1 in
     ∃ retries, retries ≤ 10 ∧
       events r = EvDeletePublicAccessBlock bucketName :: EvGetPublicAccessBlock bucketName
                    :: probe_rounds bucketName retries ∧
       (∀ i, i < retries → (probe i).1 = (false, None)) ∧
       (((probe retries).1 = (true, None) ∧ value r = None) ∨
        (∃ d e, (probe retries).1 = (d, Some e) ∧ value r = Some e) ∨
        ((probe retries).1 = (false, None) ∧ retries = 10 ∧ value r = None))) ∧
  (∀ policy statement,
     json_Unmarshal_policy (Policy bucketDetails) = inr policy →
     Statement policy = [statement] →
     public_read statement →
     (DeletePublicAccessBlock bucketName b).1 = None →
     (∀ b0, (GetPublicAccessBlock bucketName b0).1 = None) →
     value r = None ∧
     events r = EvDeletePublicAccessBlock bucketName :: EvGetPublicAccessBlock bucketName
                  :: probe_rounds bucketName 10 ∧
     count is_GetPublicAccessBlock (events r) = 11 ∧
     count is_Sleep (events r) = 10).
Proof.
  intros r.
  pose proof (checkDeletePublicAccessBlock_events bucketDetails bucketName b) as Hshape.
  cbv zeta in Hshape. fold r in Hshape. change maxRetries with 10 in Hshape.
  assert (count is_GetPublicAccessBlock (events r) ≤ 11 ∧ count is_Sleep (events r) ≤ 10)
    as [Hg Hs].
  { destruct Hshape as [->|[->|(k & Hk & ->)]];
      [rewrite ?count_cons, !count_nil; cbn; lia..|].
    rewrite !count_cons.
    destruct (count_probe_rounds bucketName k) as (-> & -> & _). cbn. lia. }
  split; [exact Hg|]. split; [exact Hs|]. split.
  { intros policy statement b1 Hparse Hst Hpub Hdel.
    exact (checkDeletePublicAccessBlock_poll bucketDetails bucketName policy statement b b1
             Hparse Hst Hpub Hdel). }
  intros policy statement Hparse Hst Hpub Hdel Hprobe.
  assert (value r = None ∧
          events r = EvDeletePublicAccessBlock bucketName :: EvGetPublicAccessBlock bucketName
                       :: probe_rounds bucketName 10) as [Hv Hev].
  { subst r. unfold checkDeletePublicAccessBlock.
    rewrite (Policy_parsed_nonempty _ _ Hparse), Hparse, Hst.
    destruct (Nat.ltb_spec 1 (length [statement])); [cbn in *; lia|].
    cbn [existsb]. apply matches_publicAccessPolicy_spec in Hpub. rewrite Hpub.
    cbn [orb]. unfold mbind, M_bind, s3svc_DeletePublicAccessBlock, invoke.
    destruct (DeletePublicAccessBlock bucketName b) as [r1 b1]. cbn in Hdel. subst r1.
    cbv beta iota zeta.
    pose proof (probe_unconfirmed bucketName b1 (Hprobe b1)) as Hfirst.
    pose proof (probe_events bucketName b1) as Hfirst_events.
    destruct (checkIsPublicAccessBlockDeleted bucketName b1) as [[[isDeleted err] b2] t].
    cbn in Hfirst, Hfirst_events. injection Hfirst as -> ->. subst t.
    destruct (confirm_loop_unconfirmed bucketName false 0 b2 Hprobe) as [Hv Hev].
    rewrite !value_preceded_by, !events_preceded_by, Hv, Hev. done. }
  rewrite Hev, !count_cons.
  destruct (count_probe_rounds bucketName 10) as (-> & -> & _). done.
Qed.

(** C7, as amended: let the policy parse to a single statement.  If the
    statement has effect Allow, principal "*" and the actions
    ["s3:GetObject"], the reconciler issues the deletion call first and once,
    and so does a [Create] whose creation, tagging and encryption steps
    succeed; an earlier failure ends [Create] before the reconciler runs.  If
    the statement differs, the reconciler calls nothing and returns nil, and
    [Create] issues no deletion call. *)
Theorem Create_deletes_public_access_block_once `{!GoLibsLaws L} (bucketName : string)
    (bucketDetails : BucketDetails) (policy : bucketPolicy)
    (statement : bucketPolicyStatement) (b : B) :
  json_Unmarshal_policy (Policy bucketDetails) = inr policy →
  Statement policy = [statement] →
  (public_read statement →
     (∀ b', ∃ rest,
        events (checkDeletePublicAccessBlock bucketDetails bucketName b')
        = EvDeletePublicAccessBlock bucketName :: rest ∧
        count is_DeletePublicAccessBlock rest = 0) ∧
     (∀ b3 Location,
        provisioned bucketName bucketDetails b b3 Location →
        count is_DeletePublicAccessBlock (events (Create bucketName bucketDetails b)) = 1)) ∧
  (¬ public_read statement →
     (∀ b', checkDeletePublicAccessBlock bucketDetails bucketName b' = (None, b', [])) ∧
     count is_DeletePublicAccessBlock (events (Create bucketName bucketDetails b)) = 0).
Proof.
  intros Hparse Hst.
  assert (Hput : ∀ b', count is_DeletePublicAccessBlock
                         (events (putBucketPolicyWithRetries bucketDetails bucketName b')) = 0).
  { intros b'. apply count_puts; [by intros []|apply putBucketPolicyWithRetries_only_puts]. }
  assert (Hprovisioning : ∀ rest, Forall (λ e, is_provisioning e = true) rest →
                            count is_DeletePublicAccessBlock rest = 0).
  { intros rest. apply count_provisioning. by intros []. }
  split.
  - intros Hpub. split.
    + intros b'. by eapply checkDeletePublicAccessBlock_public.
    + intros b3 Location Hprov.
      destruct (Create_provisioned _ _ _ _ _ Hprov) as (rest & Hrest & -> & _).
      destruct (checkDeletePublicAccessBlock_public bucketDetails bucketName policy statement
                  b3 Hparse Hst Hpub) as (rest' & -> & Hrest').
      rewrite count_cons, !count_app, count_cons, Hprovisioning, Hrest' by done. cbn.
      destruct (value _); [done|]. by rewrite Hput.
  - intros Hpriv.
    assert (Hnone : ∀ b', checkDeletePublicAccessBlock bucketDetails bucketName b'
                          = (None, b', [])).
    { intros b'. eapply checkDeletePublicAccessBlock_private; [done|rewrite Hst; cbn; lia|].
      rewrite Hst. cbn. rewrite orb_false_r.
      apply not_true_is_false. by rewrite matches_publicAccessPolicy_spec. }
    split; [exact Hnone|].
    destruct (Create_events bucketName bucketDetails b)
      as (rest & Hrest & [[-> _]|(b3 & Location & Hprov)]).
    + rewrite count_cons. cbn. by apply Hprovisioning.
    + destruct (Create_provisioned _ _ _ _ _ Hprov) as (rest' & Hrest' & -> & _).
      rewrite Hnone. change (value (None, b3, [])) with (@None error).
      change (events (None, b3, [])) with (@nil event). cbv iota.
      rewrite count_cons, !count_app, count_nil, Hprovisioning, Hput by done. done.
Qed.

(** C10: the match does not look at [Resource]: with a single statement
    of effect Allow, principal "*" and actions ["s3:GetObject"], whatever its
    resources, the reconciler issues the deletion call; with no statement
    at all it calls nothing and returns nil. *)
Theorem public_read_match_ignores_Resource `{!GoLibsLaws L} (bucketName : string)
    (bucketDetails : BucketDetails) (policy : bucketPolicy) (b : B) :
  json_Unmarshal_policy (Policy bucketDetails) = inr policy →
  (∀ resources,
     Statement policy = [{| Effect := "Allow"; Principal := "*";
                            Action := ["s3:GetObject"]; Resource := resources |}] →
     ∃ rest,
       events (checkDeletePublicAccessBlock bucketDetails bucketName b)
       = EvDeletePublicAccessBlock bucketName :: rest ∧
       count is_DeletePublicAccessBlock rest = 0) ∧
  (Statement policy = [] →
     value (checkDeletePublicAccessBlock bucketDetails bucketName b) = None ∧
     events (checkDeletePublicAccessBlock bucketDetails bucketName b) = []).
Proof.
  intros Hparse. split.
  - intros resources Hst. by eapply checkDeletePublicAccessBlock_public.
  - intros Hst.
    rewrite (checkDeletePublicAccessBlock_private bucketDetails bucketName policy b);
      [done|done|by rewrite Hst; cbn; lia|by rewrite Hst].
Qed.

(** The policy applier on a non-empty policy that renders: a first call,
    then the retry loop. *)
Lemma putBucketPolicyWithRetries_rendered (bucketDetails : BucketDetails)
    (bucketName : string) (tmpl : Template) (policy : string) (b : B) :
  Policy bucketDetails ≠ "" →
  template_Parse (Policy bucketDetails) = inr tmpl →
  template_Execute tmpl (with_BucketName bucketName bucketDetails) = inr policy →
  putBucketPolicyWithRetries bucketDetails bucketName b
  = preceded_by [EvPutBucketPolicy bucketName policy]
      (putPolicy_loop bucketName policy (PutBucketPolicy bucketName policy b).1 0
         (PutBucketPolicy bucketName policy b).2).
Proof.
  intros Hne Hparse Hexec. unfold putBucketPolicyWithRetries.
  destruct (Nat.eqb_spec (String.length (Policy bucketDetails)) 0) as [Hlen|_].
  { destruct (Policy bucketDetails); [done|discriminate]. }
  change (Policy (with_BucketName bucketName bucketDetails)) with (Policy bucketDetails).
  change (BucketName (with_BucketName bucketName bucketDetails)) with bucketName.
  rewrite Hparse, Hexec.
  unfold mbind, M_bind, s3svc_PutBucketPolicy, invoke.
  by destruct (PutBucketPolicy bucketName policy b) as [err1 b1].
Qed.

Lemma count_replicate_PutBucketPolicy (bucket policy : string) (n : nat) :
  count is_PutBucketPolicy (replicate n (EvPutBucketPolicy bucket policy)) = n.
Proof. induction n as [|n IH]; [done|]. cbn [replicate]. by rewrite count_cons, IH. Qed.

(** C2, as amended: for a non-empty policy that renders, the policy
    applier calls [PutBucketPolicy] between 1 and 11 times, the first call
    and at most 10 retries, always with the same bucket and document; every
    call but the last failed with an access-denied error; the result of the
    last call, error or not, is what the applier returns; and the last call
    succeeded, or failed with another kind of error, or was the 11th. *)
Theorem putBucketPolicyWithRetries_bounded (bucketDetails : BucketDetails)
    (bucketName : string) (tmpl : Template) (policy : string) (b : B) :
  Policy bucketDetails ≠ "" →
  template_Parse (Policy bucketDetails) = inr tmpl →
  template_Execute tmpl (with_BucketName bucketName bucketDetails) = inr policy →
  let r := putBucketPolicyWithRetries bucketDetails bucketName b in
  let response i :=
    Nat.iter i (PutBucketPolicy_again bucketName policy) (PutBucketPolicy bucketName policy b) in
  ∃ calls,
    1 ≤ calls ≤ 11 ∧
    events r = replicate calls (EvPutBucketPolicy bucketName policy) ∧
    count is_PutBucketPolicy (events r) = calls ∧
    (∀ i, S i < calls → ∃ e, (response i).1 = Some e ∧ access_denied e) ∧
    value r = (response (calls - 1)).1 ∧
    ((response (calls - 1)).1 = None ∨
     (∃ e, (response (calls - 1)).1 = Some e ∧ ¬ access_denied e) ∨
     calls = 11).
Proof.
  intros Hne Hparse Hexec r response. subst r response.
  rewrite (putBucketPolicyWithRetries_rendered _ _ _ _ _ Hne Hparse Hexec).
  destruct (PutBucketPolicy bucketName policy b) as [err1 b1]. cbn [fst snd].
  destruct (putPolicy_loop_spec bucketName policy err1 0 b1)
    as (n & Hn & Hev & Hden & Hval & Hstop).
  exists (S n). rewrite events_preceded_by, value_preceded_by, Hev, Hval.
  replace (S n - 1) with n by lia. change maxRetries with 10 in Hn, Hstop.
  change ([EvPutBucketPolicy bucketName policy] ++ replicate n (EvPutBucketPolicy bucketName policy))
    with (replicate (S n) (EvPutBucketPolicy bucketName policy)).
  rewrite count_replicate_PutBucketPolicy.
  repeat split; [lia|lia| |].
  - intros i Hi. apply Hden. lia.
  - destruct Hstop as [?|[?|?]]; [by left|by right; left|right; right; lia].
Qed.

End CreateProperties.

(** ** Rendering the policy template *)

Section TemplateProperties.
Import TextTemplate.

Lemma append_cons (c : ascii) (s t : string) : String c s +:+ t = String c (s +:+ t).
Proof. reflexivity. Qed.

Lemma append_empty_r (s : string) : s +:+ "" = s.
Proof. induction s as [|c s IH]; [done|]. by rewrite append_cons, IH. Qed.

Lemma append_assoc (s t u : string) : (s +:+ t) +:+ u = s +:+ t +:+ u.
Proof. induction s as [|c s IH]; [done|]. by rewrite !append_cons, IH. Qed.

Lemma snoc_append (s t : string) (c : ascii) : snoc s c +:+ t = s +:+ String c t.
Proof. unfold snoc. by rewrite append_assoc. Qed.

Lemma all_space_snoc (s : string) (c : ascii) :
  all_space (snoc s c) = all_space s && is_space c.
Proof.
  induction s as [|c' s IH].
  - change (all_space (snoc "" c)) with (is_space c && true). by rewrite andb_true_r.
  - change (all_space (snoc (String c' s) c)) with (is_space c' && all_space (snoc s c)).
    rewrite IH. cbn [all_space]. by rewrite andb_assoc.
Qed.

Lemma trim_left_all_space (s : string) : all_space s = true → trim_left s = "".
Proof.
  induction s as [|c s IH]; [done|]. cbn. intros [Hc Hs]%andb_true_iff.
  rewrite Hc. auto.
Qed.

Lemma trim_left_snoc (s : string) (c : ascii) :
  trim_left (snoc s c)
  = if all_space s then (if is_space c then "" else String c "") else snoc (trim_left s) c.
Proof.
  induction s as [|c' s IH].
  - done.
  - change (trim_left (snoc (String c' s) c))
      with (if is_space c' then trim_left (snoc s c) else String c' (snoc s c)).
    cbn [all_space trim_left]. destruct (is_space c'); [exact IH|done].
Qed.

(** One character of literal text. *)
Lemma scan_in_text (after_trim : bool) (raw : string) (c : ascii) (rest : string) :
  (Ascii.eqb c "{" = true → ∃ c' rest', rest = String c' rest' ∧ Ascii.eqb c' "{" = false) →
  scan (in_text after_trim raw) (String c rest) = scan (in_text after_trim (snoc raw c)) rest.
Proof.
  intros Hbrace. unfold in_text. rewrite all_space_snoc, trim_left_snoc.
  assert (Hstep : ∀ text, scan (InText false text) (String c rest)
                          = scan (InText false (snoc text c)) rest).
  { intros text. cbn [scan andb].
    destruct (Ascii.eqb c "{") eqn:Hc; [|done].
    destruct (Hbrace eq_refl) as (c' & rest' & -> & Hc'). by rewrite Hc'. }
  destruct after_trim; cbn [andb]; [|apply Hstep].
  destruct (all_space raw) eqn:Hraw.
  - rewrite (trim_left_all_space raw) by done.
    destruct (is_space c) eqn:Hc.
    + cbn [scan andb]. by rewrite Hc.
    + assert (scan (InText true "") (String c rest) = scan (InText false "") (String c rest))
        as -> by (cbn [scan andb]; by rewrite Hc).
      apply Hstep.
  - apply Hstep.
Qed.

(** Literal text is read as text, whatever follows it. *)
Lemma scan_literal (after_trim : bool) (text raw rest : string) :
  literal_text text = true →
  scan (in_text after_trim raw) (text +:+ rest) = scan (in_text after_trim (raw +:+ text)) rest.
Proof.
  revert raw. induction text as [|c text IH]; intros raw Hlit.
  - by rewrite append_empty_r.
  - rewrite append_cons. cbn [literal_text] in Hlit.
    rewrite scan_in_text.
    + rewrite IH, snoc_append; [done|].
      destruct (Ascii.eqb c "{"); [|done].
      destruct text; [done|]. by apply andb_true_iff in Hlit as [_ Hlit].
    + intros Hc. rewrite Hc in Hlit. destruct text as [|c' text]; [done|].
      apply andb_true_iff in Hlit as [Hc' _]. apply negb_true_iff in Hc'.
      by exists c', (text +:+ rest).
Qed.

Lemma scan_blanks_open (n : nat) (rest : string) :
  scan ActionOpen (blanks n +:+ rest) = scan ActionOpen rest.
Proof. induction n as [|n IH]; [done|]. cbn [blanks]. by rewrite append_cons. Qed.

Lemma scan_blanks_close (n : nat) (trim_after : bool) (name rest : string) :
  scan (ActionClose name) (blanks n +:+ (if trim_after then " -" else "") +:+ "}}" +:+ rest)
  = (FieldNode name ::.) <$> scan (InText trim_after "") rest.
Proof.
  induction n as [|n IH]; [by destruct trim_after|]. cbn [blanks]. by rewrite append_cons.
Qed.

Lemma scan_field (n : nat) (trim_after : bool) (rest : string) :
  scan ActionOpen (".BucketName" +:+ blanks n +:+ (if trim_after then " -" else "")
                   +:+ "}}" +:+ rest)
  = (FieldNode "BucketName" ::.) <$> scan (InText trim_after "") rest.
Proof.
  destruct n as [|n].
  - by destruct trim_after.
  - change (scan ActionOpen (".BucketName" +:+ blanks (S n)
                             +:+ (if trim_after then " -" else "") +:+ "}}" +:+ rest))
      with (scan (ActionClose "BucketName")
              (blanks n +:+ (if trim_after then " -" else "") +:+ "}}" +:+ rest)).
    apply scan_blanks_close.
Qed.

(** The left delimiter ends the text read so far; a trim marker after it
    removes the white space at the end of that text. *)
Lemma scan_left_delimiter (skip trim_before : bool) (text : string) (l : nat) (rest : string) :
  scan (InText skip text)
    ("{{" +:+ (if trim_before then "- " else "") +:+ blanks l +:+ ".BucketName" +:+ rest)
  = (text_node (if trim_before then trim_right text else text) ++.)
    <$> scan ActionOpen (".BucketName" +:+ rest).
Proof.
  transitivity (scan (InText false text)
                  ("{{" +:+ (if trim_before then "- " else "") +:+ blanks l
                   +:+ ".BucketName" +:+ rest)); [by destruct skip|].
  destruct trim_before.
  - change (scan (InText false text) ("{{" +:+ "- " +:+ blanks l +:+ ".BucketName" +:+ rest))
      with ((text_node (trim_right text) ++.)
            <$> scan ActionOpen (blanks l +:+ ".BucketName" +:+ rest)).
    by rewrite scan_blanks_open.
  - destruct l as [|l]; [done|].
    change (scan (InText false text) ("{{" +:+ "" +:+ blanks (S l) +:+ ".BucketName" +:+ rest))
      with ((text_node text ++.)
            <$> scan ActionOpen (blanks (S l) +:+ ".BucketName" +:+ rest)).
    by rewrite scan_blanks_open.
Qed.

(** A placeholder is read as the field [BucketName]. *)
Lemma scan_placeholder (after_trim trim_before trim_after : bool) (l r : nat)
    (raw rest : string) :
  scan (in_text after_trim raw)
    (segment_text (BucketNamePlaceholder trim_before l r trim_after) +:+ rest)
  = (λ tmpl,
       let text := if after_trim then trim_left raw else raw in
       text_node (if trim_before then trim_right text else text)
       ++ FieldNode "BucketName" :: tmpl)
    <$> scan (in_text trim_after "") rest.
Proof.
  cbn [segment_text]. rewrite !append_assoc. unfold in_text at 1.
  rewrite scan_left_delimiter, scan_field.
  assert (in_text trim_after "" = InText trim_after "") as -> by by destruct trim_after.
  by destruct (scan (InText trim_after "") rest).
Qed.

Lemma execute_text_node (acc : string) (tmpl : list node) (data : BucketDetails) :
  execute (text_node acc ++ tmpl) data = String.append acc <$> execute tmpl data.
Proof.
  unfold text_node. destruct (String.eqb_spec acc "") as [->|_].
  - cbn [app]. by destruct (execute tmpl data).
  - reflexivity.
Qed.

Lemma scan_execute (segs : list segment) (after_trim : bool) (raw : string)
    (data : BucketDetails) :
  Forall (λ g, literal_segment g = true) segs →
  scan (in_text after_trim raw) (template_text segs) ≫= (λ tmpl, execute tmpl data)
  = Some (trimmed_substitute (BucketName data) after_trim raw segs).
Proof.
  intros Hsegs. revert after_trim raw.
  induction Hsegs as [|[text|trim_before l r trim_after] segs Hg _ IH]; intros after_trim raw.
  - cbn [template_text trimmed_substitute]. unfold in_text. cbn [scan mbind option_bind].
    rewrite <- (app_nil_r (text_node _)), execute_text_node. cbn.
    by rewrite append_empty_r.
  - cbn [template_text trimmed_substitute segment_text].
    by rewrite scan_literal, IH.
  - cbn [template_text trimmed_substitute]. rewrite scan_placeholder.
    specialize (IH trim_after "").
    destruct (scan (in_text trim_after "") (template_text segs)) as [tmpl|]; [|done].
    cbn in IH. cbn [fmap option_fmap option_map mbind option_bind]. cbv zeta.
    rewrite execute_text_node. cbn [execute field_value]. cbn. by rewrite IH.
Qed.

(** Rendering a template made of literal text and bucket-name
    placeholders yields the text with every placeholder replaced by the
    bucket name of the data, less the white space next to a trim marker. *)
Lemma render_template_text (segs : list segment) (data : BucketDetails) :
  Forall (λ g, literal_segment g = true) segs →
  render (template_text segs) data = Some (trimmed_substitute (BucketName data) false "" segs).
Proof. intros Hsegs. unfold render, parse. by rewrite <- scan_execute. Qed.

(** Without a trim marker nothing is removed. *)
Lemma trimmed_substitute_unmarked (bucketName text : string) (segs : list segment) :
  Forall (λ g, trim_marked g = false) segs →
  trimmed_substitute bucketName false text segs = text +:+ substitute bucketName segs.
Proof.
  intros Hsegs. revert text.
  induction Hsegs as [|[text'|trim_before l r trim_after] segs Hg _ IH]; intros text.
  - cbn. by rewrite append_empty_r.
  - cbn [trimmed_substitute substitute]. by rewrite IH, append_assoc.
  - cbn in Hg. apply orb_false_iff in Hg as [-> ->].
    cbn [trimmed_substitute substitute]. by rewrite IH.
Qed.

End TemplateProperties.

(** C8, as amended: let the policy be a template made of literal text and
    bucket-name placeholders only.  Rendering it with the data of the policy
    applier, whose [BucketName] is the name of the bucket, replaces every
    placeholder by that name and removes the white space next to a trim
    marker; this document, and no other, is sent to the backend.  When no
    placeholder carries a trim marker, every other character of the template
    is kept: with the bucket name "my-bucket", the document is the template
    with "my-bucket" in the place of every placeholder. *)
Theorem policy_template_substitutes_BucketName {L : GoLibs} {B : Type} {Client : S3Client B}
    (segs : list TextTemplate.segment) (bucketDetails : BucketDetails)
    (bucketName : string) (b : B) :
  extends_TextTemplate L →
  Forall (λ g, TextTemplate.literal_segment g = true) segs →
  Policy bucketDetails = TextTemplate.template_text segs →
  Policy bucketDetails ≠ "" →
  let document := TextTemplate.trimmed_substitute bucketName false "" segs in
  TextTemplate.render (Policy bucketDetails) (with_BucketName bucketName bucketDetails)
  = Some document ∧
  (Forall (λ g, TextTemplate.trim_marked g = false) segs →
   document = TextTemplate.substitute bucketName segs) ∧
  ∃ calls,
    1 ≤ calls ∧
    events (putBucketPolicyWithRetries bucketDetails bucketName b)
    = replicate calls (EvPutBucketPolicy bucketName document).
Proof.
  intros Hext Hsegs Hpolicy Hne document.
  assert (TextTemplate.render (Policy bucketDetails) (with_BucketName bucketName bucketDetails)
          = Some document) as Hrender.
  { rewrite Hpolicy. by apply render_template_text. }
  split; [exact Hrender|]. split.
  { intros Hplain. subst document. by rewrite trimmed_substitute_unmarked. }
  destruct (Hext _ _ _ Hrender) as (tmpl & Hparse & Hexec).
  rewrite (putBucketPolicyWithRetries_rendered _ _ _ _ b Hne Hparse Hexec).
  destruct (putPolicy_loop_spec bucketName document
              (PutBucketPolicy bucketName document b).1 0
              (PutBucketPolicy bucketName document b).2) as (n & _ & Hev & _).
  exists (S n). split; [lia|]. by rewrite events_preceded_by, Hev.
Qed.

(** ** The fixtures at work *)

Lemma Fake_libs_laws : GoLibsLaws Fake.libs.
Proof. split. intros p. vm_compute. discriminate. Qed.

Lemma Fake_libs_extends : extends_TextTemplate Fake.libs.
Proof.
  intros text data out. unfold TextTemplate.render. cbn.
  destruct (TextTemplate.parse text) as [tmpl|]; [|done].
  cbn. intros Hexec. exists tmpl. by rewrite Hexec.
Qed.

(** The public-read policy of the fixtures, as JSON text.  Its resource
    holds a bucket-name placeholder. *)
Example publicRead_document :
  TextTemplate.render (Fake.json_policy (Fake.policy_of [Fake.publicRead]))
    (with_BucketName "my-bucket" BucketDetails_zero)
  = Some (Fake.json_policy (Fake.policy_of
            [{| Effect := "Allow"; Principal := "*"; Action := ["s3:GetObject"];
                Resource := ["arn:aws:s3:::my-bucket/*"] |}])).
Proof. vm_compute. reflexivity. Qed.

(** A [Create] of a public-read bucket on a backend where every call
    succeeds and the access block never appears deleted. *)
Example Create_public_read_run :
  Create (L := Fake.libs) (Client := Fake.client Fake.happy) "my-bucket"
    (Fake.details (Fake.json_policy (Fake.policy_of [Fake.publicRead]))) 0
  = ("/my-bucket", None, 15,
     [EvCreateBucket "my-bucket" "BucketOwnerEnforced"; EvPutBucketTagging "my-bucket" [];
      EvDeletePublicAccessBlock "my-bucket"; EvGetPublicAccessBlock "my-bucket"]
     ++ probe_rounds "my-bucket" 10
     ++ [EvPutBucketPolicy "my-bucket"
           (Fake.json_policy (Fake.policy_of
              [{| Effect := "Allow"; Principal := "*"; Action := ["s3:GetObject"];
                  Resource := ["arn:aws:s3:::my-bucket/*"] |}]))]).
Proof. vm_compute. reflexivity. Qed.

(** The same [Create] on a backend that becomes consistent after 5 calls:
    two probes are not confirmed, the third is, and the policy is put at
    once. *)
Example Create_eventually_consistent_run :
  Create (L := Fake.libs) (Client := Fake.client (Fake.eventually 5)) "my-bucket"
    Fake.publicReadDetails 0
  = ("/my-bucket", None, 7,
     [EvCreateBucket "my-bucket" "BucketOwnerEnforced"; EvPutBucketTagging "my-bucket" [];
      EvDeletePublicAccessBlock "my-bucket"; EvGetPublicAccessBlock "my-bucket";
      EvSleep 1; EvGetPublicAccessBlock "my-bucket";
      EvSleep 1; EvGetPublicAccessBlock "my-bucket";
      EvPutBucketPolicy "my-bucket"
        (Fake.json_policy (Fake.policy_of
           [{| Effect := "Allow"; Principal := "*"; Action := ["s3:GetObject"];
               Resource := ["arn:aws:s3:::my-bucket/*"] |}]))]).
Proof. vm_compute. reflexivity. Qed.

(** The policy applier alone, on a backend that denies the first 3 calls. *)
Example putBucketPolicyWithRetries_run :
  let r := putBucketPolicyWithRetries (L := Fake.libs) (Client := Fake.client (Fake.eventually 3))
             Fake.publicReadDetails "my-bucket" 0 in
  value r = None ∧ count is_PutBucketPolicy (events r) = 4.
Proof. vm_compute. split; reflexivity. Qed.

(** A trim marker removes the white space on its side of the action, and
    nothing on the other side. *)
Example trim_marker_removes_white_space :
  TextTemplate.render "arn:aws:s3::: {{- .BucketName }} /* and {{ .BucketName -}}  /*"
    (with_BucketName "my-bucket" BucketDetails_zero)
  = Some "arn:aws:s3:::my-bucket /* and my-bucket/*".
Proof. vm_compute. reflexivity. Qed.

(** A minus that no blank separates from the field is no trim marker, and
    is outside the fragment. *)
Example minus_without_blank_not_modelled :
  TextTemplate.parse "arn:aws:s3::: {{-.BucketName}}" = None ∧
  TextTemplate.parse "arn:aws:s3:::{{.BucketName-}} /*" = None.
Proof. split; reflexivity. Qed.

(** The encryption configuration of the fixtures, as JSON text, and a
    text that is no JSON. *)
Example encryption_document :
  Encryption Fake.encryptedDetails
  = "{" +:+ Fake.quoted "Rules" +:+ ":[{" +:+ Fake.quoted "ApplyServerSideEncryptionByDefault"
    +:+ ":{" +:+ Fake.quoted "SSEAlgorithm" +:+ ":" +:+ Fake.quoted "AES256" +:+ "}}]}" ∧
  @json_Unmarshal_encryption Fake.libs "{Rules: [AES256]}"
  = inl (PlainError "invalid character looking for beginning of value").
Proof. split; reflexivity. Qed.

(** A [Create] of an encrypted private bucket. *)
Example Create_encrypted_run :
  Create (L := Fake.libs) (Client := Fake.client Fake.happy) "my-bucket" Fake.encryptedDetails 0
  = ("/my-bucket", None, 3,
     [EvCreateBucket "my-bucket" "BucketOwnerEnforced"; EvPutBucketTagging "my-bucket" [];
      EvPutBucketEncryption (L := Fake.libs) "my-bucket" ["AES256"]]).
Proof. vm_compute. reflexivity. Qed.

(** An empty batch error makes [isNoSuchBucketError] index an empty
    slice. *)
Example isNoSuchBucketError_empty_batch :
  isNoSuchBucketError (Fake.batchError []) = Panics "index out of range [0] with length 0".
Proof. reflexivity. Qed.

(** ** Witnesses and counterexamples *)

(** C1 as stated fails: on a backend where every call succeeds, a
    [Create] with a two-statement policy has created and tagged the bucket
    by the time it returns its error. *)
Lemma Create_many_statements_counterexample :
  let r := Create (L := Fake.libs) (Client := Fake.client Fake.happy)
             "my-bucket" Fake.twoStatements 0 in
  @json_Unmarshal_policy Fake.libs (Policy Fake.twoStatements)
  = inr (Fake.policy_of [Fake.publicRead; Fake.publicWrite]) ∧
  value r = ("", Some (PlainError "expected 1 policy statement, got 2")) ∧
  events r = [EvCreateBucket "my-bucket" "BucketOwnerEnforced";
              EvPutBucketTagging "my-bucket" []] ∧
  count is_CreateBucket (events r) = 1 ∧
  count is_PutBucketTagging (events r) = 1.
Proof. vm_compute. repeat split. Qed.

Lemma Create_rejects_many_statements_witness :
  let r := Create (L := Fake.libs) (Client := Fake.client Fake.happy)
             "my-bucket" Fake.twoStatements 0 in
  ∃ err, value r = ("", Some err) ∧
         count is_DeletePublicAccessBlock (events r) = 0 ∧
         count is_GetPublicAccessBlock (events r) = 0 ∧
         count is_PutBucketPolicy (events r) = 0.
Proof.
  destruct (@Create_rejects_many_statements Fake.libs nat (Fake.client Fake.happy)
              Fake_libs_laws "my-bucket" Fake.twoStatements
              (Fake.policy_of [Fake.publicRead; Fake.publicWrite]) 0)
    as (err & rest & Hv & _ & _ & Hd & Hg & Hp).
  - vm_compute. reflexivity.
  - cbn. lia.
  - by exists err.
Defined.

(** C2 as stated fails: on a backend that denies every call, the policy
    applier calls [PutBucketPolicy] 11 times before it returns the error. *)
Lemma putBucketPolicyWithRetries_counterexample :
  let r := putBucketPolicyWithRetries (L := Fake.libs) (Client := Fake.client Fake.denying)
             Fake.publicReadDetails "my-bucket" 0 in
  count is_PutBucketPolicy (events r) = 11 ∧
  ¬ count is_PutBucketPolicy (events r) ≤ 10 ∧
  value r = Some Fake.accessDenied.
Proof.
  intros r.
  assert (count is_PutBucketPolicy (events r) = 11) as Hcount by (vm_compute; reflexivity).
  rewrite Hcount. split; [reflexivity|]. split; [lia|]. vm_compute. reflexivity.
Qed.

Lemma putBucketPolicyWithRetries_bounded_witness :
  let r := putBucketPolicyWithRetries (L := Fake.libs) (Client := Fake.client Fake.denying)
             Fake.publicReadDetails "my-bucket" 0 in
  ∃ calls, 1 ≤ calls ≤ 11 ∧ count is_PutBucketPolicy (events r) = calls.
Proof.
  edestruct (@putBucketPolicyWithRetries_bounded Fake.libs nat (Fake.client Fake.denying)
               Fake.publicReadDetails "my-bucket")
    as (calls & Hcalls & _ & Hcount & _).
  - vm_compute. discriminate.
  - vm_compute. reflexivity.
  - vm_compute. reflexivity.
  - exists calls. split; [exact Hcalls|exact Hcount].
Defined.

(** C3 as stated fails: when no probe ever confirms the deletion, the
    reconciler probes 11 times, and returns nil. *)
Lemma confirmation_poll_counterexample :
  let r := checkDeletePublicAccessBlock (L := Fake.libs) (Client := Fake.client Fake.happy)
             Fake.publicReadDetails "my-bucket" 0 in
  count is_GetPublicAccessBlock (events r) = 11 ∧
  ¬ count is_GetPublicAccessBlock (events r) ≤ 10 ∧
  count is_Sleep (events r) = 10 ∧
  value r = None.
Proof.
  intros r.
  assert (count is_GetPublicAccessBlock (events r) = 11) as Hcount by (vm_compute; reflexivity).
  rewrite Hcount. split; [reflexivity|]. split; [lia|].
  split; vm_compute; reflexivity.
Qed.

Lemma confirmation_poll_is_bounded_witness :
  let r := checkDeletePublicAccessBlock (L := Fake.libs) (Client := Fake.client Fake.happy)
             Fake.publicReadDetails "my-bucket" 0 in
  value r = None ∧
  count is_GetPublicAccessBlock (events r) = 11 ∧
  count is_Sleep (events r) = 10.
Proof.
  destruct (@confirmation_poll_is_bounded Fake.libs nat (Fake.client Fake.happy)
              Fake_libs_laws Fake.publicReadDetails "my-bucket" 0)
    as (_ & _ & _ & Hexhausted).
  destruct (Hexhausted (Fake.policy_of [Fake.publicRead]) Fake.publicRead)
    as (Hv & _ & Hg & Hs).
  - vm_compute. reflexivity.
  - reflexivity.
  - repeat split.
  - reflexivity.
  - intros n. reflexivity.
  - repeat split; assumption.
Defined.

(** C7 as stated fails: when the bucket cannot be created, a [Create] with
    the public-read policy ends before the reconciler and issues no
    deletion call. *)
Lemma Create_public_read_counterexample :
  let r := Create (L := Fake.libs) (Client := Fake.client Fake.createFails)
             "my-bucket" Fake.publicReadDetails 0 in
  @json_Unmarshal_policy Fake.libs (Policy Fake.publicReadDetails)
  = inr (Fake.policy_of [Fake.publicRead]) ∧
  public_read Fake.publicRead ∧
  events r = [EvCreateBucket "my-bucket" "BucketOwnerEnforced"] ∧
  count is_DeletePublicAccessBlock (events r) = 0 ∧
  count is_DeletePublicAccessBlock (events r) ≠ 1.
Proof. vm_compute. repeat split. discriminate. Qed.

Lemma Create_deletes_public_access_block_once_witness :
  count is_DeletePublicAccessBlock
    (events (Create (L := Fake.libs) (Client := Fake.client Fake.happy)
               "my-bucket" Fake.publicReadDetails 0)) = 1 ∧
  count is_DeletePublicAccessBlock
    (events (Create (L := Fake.libs) (Client := Fake.client Fake.happy)
               "my-bucket" Fake.publicWriteDetails 0)) = 0.
Proof.
  split.
  - refine (proj2 (proj1 (@Create_deletes_public_access_block_once Fake.libs nat
                            (Fake.client Fake.happy) Fake_libs_laws "my-bucket"
                            Fake.publicReadDetails (Fake.policy_of [Fake.publicRead])
                            Fake.publicRead 0 _ eq_refl) _) 2 (Some "/my-bucket") _).
    + vm_compute. reflexivity.
    + repeat split.
    + exists 1. exists 2. repeat split.
  - refine (proj2 (proj2 (@Create_deletes_public_access_block_once Fake.libs nat
                            (Fake.client Fake.happy) Fake_libs_laws "my-bucket"
                            Fake.publicWriteDetails (Fake.policy_of [Fake.publicWrite])
                            Fake.publicWrite 0 _ eq_refl) _)).
    + vm_compute. reflexivity.
    + intros (_ & _ & Haction). discriminate.
Defined.

Lemma public_read_match_ignores_Resource_witness :
  (∃ rest,
     events (checkDeletePublicAccessBlock (L := Fake.libs) (Client := Fake.client Fake.happy)
               Fake.publicReadDetails "my-bucket" 0)
     = EvDeletePublicAccessBlock "my-bucket" :: rest) ∧
  events (checkDeletePublicAccessBlock (L := Fake.libs) (Client := Fake.client Fake.happy)
            Fake.noStatement "my-bucket" 0) = [].
Proof.
  split.
  - destruct (proj1 (@public_read_match_ignores_Resource Fake.libs nat
                       (Fake.client Fake.happy) Fake_libs_laws "my-bucket"
                       Fake.publicReadDetails (Fake.policy_of [Fake.publicRead]) 0
                       ltac:(vm_compute; reflexivity))
                    ["arn:aws:s3:::{{.BucketName}}/*"] eq_refl) as (rest & Hev & _).
    by exists rest.
  - exact (proj2 (proj2 (@public_read_match_ignores_Resource Fake.libs nat
                           (Fake.client Fake.happy) Fake_libs_laws "my-bucket"
                           Fake.noStatement (Fake.policy_of []) 0
                           ltac:(vm_compute; reflexivity)) eq_refl)).
Defined.

Lemma policy_template_substitutes_BucketName_witness :
  Policy (Fake.details (TextTemplate.template_text Fake.resource_template))
  = Fake.json_resources "arn:aws:s3:::{{.BucketName}}" "arn:aws:s3:::{{ .BucketName }}/*" ∧
  TextTemplate.render (Policy (Fake.details (TextTemplate.template_text Fake.resource_template)))
    (with_BucketName "my-bucket" (Fake.details (TextTemplate.template_text Fake.resource_template)))
  = Some (Fake.json_resources "arn:aws:s3:::my-bucket" "arn:aws:s3:::my-bucket/*") ∧
  Fake.json_resources "arn:aws:s3:::my-bucket" "arn:aws:s3:::my-bucket/*"
  = TextTemplate.substitute "my-bucket" Fake.resource_template.
Proof.
  split; [reflexivity|].
  destruct (@policy_template_substitutes_BucketName Fake.libs nat (Fake.client Fake.happy)
              Fake.resource_template
              (Fake.details (TextTemplate.template_text Fake.resource_template))
              "my-bucket" 0 Fake_libs_extends) as (Hrender & Hplain & _).
  - repeat constructor.
  - reflexivity.
  - vm_compute. discriminate.
  - split; [exact Hrender|]. apply Hplain. repeat constructor.
Defined.

(** C8 as stated fails: a placeholder that references [BucketName] may
    carry a trim marker, and then the document sent to the backend has lost
    the white space next to the marker; it is not the template with
    "my-bucket" in the place of every placeholder and every other character
    unchanged. *)
Lemma policy_template_trim_marker_counterexample :
  let bucketDetails := Fake.details (TextTemplate.template_text Fake.trimming_template) in
  let r := putBucketPolicyWithRetries (L := Fake.libs) (Client := Fake.client Fake.happy)
             bucketDetails "my-bucket" 0 in
  Policy bucketDetails
  = Fake.json_resources "arn:aws:s3::: {{- .BucketName}}" "arn:aws:s3:::{{ .BucketName -}} /*" ∧
  value r = None ∧
  events r = [EvPutBucketPolicy "my-bucket"
                (Fake.json_resources "arn:aws:s3:::my-bucket" "arn:aws:s3:::my-bucket/*")] ∧
  TextTemplate.substitute "my-bucket" Fake.trimming_template
  = Fake.json_resources "arn:aws:s3::: my-bucket" "arn:aws:s3:::my-bucket /*" ∧
  Fake.json_resources "arn:aws:s3:::my-bucket" "arn:aws:s3:::my-bucket/*"
  ≠ TextTemplate.substitute "my-bucket" Fake.trimming_template.
Proof. vm_compute. repeat split. discriminate. Qed.

(** * Further properties *)

(** ** Errors and their classification *)

Section ErrorProperties.

Lemma as_awserr_flatten_error (err : error) : as_awserr (flatten_error err) = None.
Proof.
  unfold flatten_error. destruct (as_awserr err) as [[code message]|] eqn:Haws; [done|].
  exact Haws.
Qed.

Lemma isNoSuchBucketError_plain (err : error) :
  as_awserr err = None → isNoSuchBucketError err = Returns false.
Proof. by destruct err. Qed.

Lemma isAccessDeniedException_plain (err : error) :
  as_awserr err = None → isAccessDeniedException err = false.
Proof. unfold isAccessDeniedException. by intros ->. Qed.

Lemma isNoSuchBucketError_true_inv (err : error) :
  isNoSuchBucketError err = Returns true → bucket_absent err.
Proof.
  revert err. fix IH 1. intros [msg|code message|code message causes] Htrue.
  - discriminate.
  - cbn in Htrue. injection Htrue as Hcode. apply String.eqb_eq in Hcode as ->.
    constructor.
  - cbn in Htrue. unfold isBatchDeleteNoBucketError_on in Htrue.
    destruct causes as [|[[cause|] bucket key] [|second causes]]; cbn in Htrue;
      try discriminate.
    constructor. apply IH. exact Htrue.
Qed.

Lemma isNoSuchBucketError_panics_inv (err : error) (reason : string) :
  isNoSuchBucketError err = Panics reason → empty_batch err.
Proof.
  revert err. fix IH 1. intros [msg|code message|code message causes] Hpanic.
  - discriminate.
  - discriminate.
  - cbn in Hpanic. unfold isBatchDeleteNoBucketError_on in Hpanic.
    destruct causes as [|[[cause|] bucket key] [|second causes]]; cbn in Hpanic;
      try discriminate.
    + constructor.
    + constructor. by apply IH.
Qed.

Lemma isNoSuchBucketError_panics_on_empty (err : error) :
  empty_batch err →
  isNoSuchBucketError err = Panics "index out of range [0] with length 0".
Proof. induction 1 as [code message|code message cause bucket key _ IH]; [done|exact IH]. Qed.

(** X1: [isNoSuchBucketError] answers true exactly on the failures that
    report the bucket absent: an [awserr.Error] of code NoSuchBucket, direct
    or at the end of a chain of batch errors of one cause each. *)
Theorem isNoSuchBucketError_true_iff (err : error) :
  isNoSuchBucketError err = Returns true ↔ bucket_absent err.
Proof. split; [apply isNoSuchBucketError_true_inv|apply isNoSuchBucketError_absent]. Qed.

(** X2: [isNoSuchBucketError] panics exactly on a batch error without any
    cause, direct or at the end of a chain of batch errors of one cause
    each: the index expression reads element 0 of the empty slice. *)
Theorem isNoSuchBucketError_panics_iff (err : error) :
  (∃ reason, isNoSuchBucketError err = Panics reason) ↔ empty_batch err.
Proof.
  split.
  - intros [reason Hpanic]. by eapply isNoSuchBucketError_panics_inv.
  - intros Hempty. eexists. by apply isNoSuchBucketError_panics_on_empty.
Qed.

End ErrorProperties.

(** ** Describe, further *)

Section DescribeFurther.
Context {L : GoLibs} {B : Type} {Client : S3Client B}.

(** X3: when the location lookup fails, [Describe] returns the zero
    [BucketDetails] and an error: for an [awserr.Error] a new plain error
    whose text is the code, a colon, a blank and the message, for any other
    error the error itself.  Whatever the lookup answers, [Describe] makes
    that one call and no other. *)
Theorem Describe_lookup_failure (bucketName partition : string) (b b' : B) (err : error) :
  GetBucketLocation bucketName b = (inl err, b') →
  let r := Describe bucketName partition b in
  value r = (BucketDetails_zero,
             Some match as_awserr err with
                  | Some (code, message) => PlainError (code +:+ ": " +:+ message)
                  | None => err
                  end) ∧
  events r = [EvGetBucketLocation bucketName] ∧
  final r = b'.
Proof.
  intros Hloc. unfold Describe, s3svc_GetBucketLocation, invoke, mbind, M_bind.
  rewrite Hloc. by destruct (as_awserr err) as [[code message]|] eqn:Haws; cbn;
    unfold flatten_error; rewrite Haws.
Qed.

(** X4: an error returned by [Describe] is never an [awserr.Error]: its
    code cannot be read back, and neither [isNoSuchBucketError] nor
    [isAccessDeniedException] recognises it, whatever the backend
    answered. *)
Theorem Describe_error_is_not_classified (bucketName partition : string) (b : B) (err : error) :
  (value (Describe bucketName partition b)).2 = Some err →
  as_awserr err = None ∧
  isNoSuchBucketError err = Returns false ∧
  isAccessDeniedException err = false.
Proof.
  unfold Describe, s3svc_GetBucketLocation, invoke, mbind, M_bind.
  destruct (GetBucketLocation bucketName b) as [[e|loc] b']; cbn; [|done].
  intros [= <-]. pose proof (as_awserr_flatten_error e) as Hplain.
  split; [done|]. split.
  - by apply isNoSuchBucketError_plain.
  - by apply isAccessDeniedException_plain.
Qed.

End DescribeFurther.

(** ** Delete, further *)

Section DeleteFurther.
Context {L : GoLibs} {B : Type} {Client : S3Client B}.

(** [Delete], step by step. *)
Lemma Delete_unfold (bucketName : string) (deleteObjects : bool) (b : B) :
  Delete bucketName deleteObjects b
  = let contents :=
      if deleteObjects then
        if is_s3_S3 then
          (match (BatchDelete bucketName b).1 with
           | Some e => handleDeleteError e
           | None => Returns None
           end, (BatchDelete bucketName b).2, [EvBatchDelete bucketName])
        else (Panics "interface conversion: awss3.S3Client is not *s3.S3", b, [])
      else (Returns None, b, []) in
    match value contents with
    | Returns None =>
        preceded_by (events contents)
          (match (DeleteBucket bucketName (final contents)).1 with
           | Some e => handleDeleteError e
           | None => Returns None
           end, (DeleteBucket bucketName (final contents)).2, [EvDeleteBucket bucketName])
    | other => (other, final contents, events contents)
    end.
Proof.
  unfold Delete, deleteBucketContents, mbind, M_bind, s3manager_BatchDelete,
    s3svc_DeleteBucket, invoke, mret, M_ret.
  destruct deleteObjects.
  - destruct is_s3_S3; [|done].
    destruct (BatchDelete bucketName b) as [[e|] b1]; cbn.
    + destruct (handleDeleteError e) as [[e'|]|reason]; cbn; [done| |done].
      by destruct (DeleteBucket bucketName b1) as [r b2].
    + by destruct (DeleteBucket bucketName b1) as [r b2].
  - cbn. by destruct (DeleteBucket bucketName b) as [r b2].
Qed.

Lemma handleDeleteError_cases (e : error) :
  handleDeleteError e = Returns None ∨
  handleDeleteError e = Returns (Some e) ∨
  ∃ reason, handleDeleteError e = Panics reason.
Proof.
  unfold handleDeleteError.
  destruct (isNoSuchBucketError e) as [[|]|reason]; [by left|by right; left|].
  right; right. by eexists.
Qed.

Lemma handleDeleteError_returns (r : option error) :
  (∀ e, r = Some e → ¬ empty_batch e) →
  ∃ r', match r with Some e => handleDeleteError e | None => Returns None end = Returns r'.
Proof.
  intros Hr. destruct r as [e|]; [|by eexists].
  destruct (handleDeleteError_cases e) as [->|[->|[reason He]]]; [by eexists..|].
  exfalso. apply (Hr e eq_refl). unfold handleDeleteError in He.
  destruct (isNoSuchBucketError e) as [[|]|reason'] eqn:Hpanic; [done..|].
  by eapply isNoSuchBucketError_panics_inv.
Qed.

(** X5: the calls of [Delete].  Without [deleteObjects] the bucket deletion
    is its only call.  With [deleteObjects], on a client that is not the
    client of the SDK, the type assertion of [deleteBucketContents] panics
    before any call is made; on the client of the SDK the batch deletion is
    run and then, unless it ended [Delete], the bucket deletion: each at
    most once and in this order, both on [bucketName]. *)
Theorem Delete_calls (bucketName : string) (deleteObjects : bool) (b : B) :
  let r := Delete bucketName deleteObjects b in
  (deleteObjects = false → events r = [EvDeleteBucket bucketName]) ∧
  (deleteObjects = true → is_s3_S3 = false →
     (∃ reason, value r = Panics reason) ∧ events r = [] ∧ final r = b) ∧
  (deleteObjects = true → is_s3_S3 = true →
     events r = [EvBatchDelete bucketName] ∨
     events r = [EvBatchDelete bucketName; EvDeleteBucket bucketName]).
Proof.
  rewrite Delete_unfold. cbv zeta. split_and!.
  - by intros ->.
  - intros -> ->. cbn. split; [by eexists|done].
  - intros -> ->. destruct ((BatchDelete bucketName b).1) as [e|]; cbn.
    + destruct (handleDeleteError_cases e) as [->|[->|[reason ->]]]; cbn; auto.
    + auto.
Qed.

(** X6: [Delete] reports success only after the bucket deletion call:
    when it returns nil, [DeleteBucket] is the last call it made, and that
    call succeeded or reported the bucket absent. *)
Theorem Delete_success_after_DeleteBucket (bucketName : string) (deleteObjects : bool) (b : B) :
  value (Delete bucketName deleteObjects b) = Returns None →
  ∃ b1,
    events (Delete bucketName deleteObjects b)
    = (if deleteObjects then [EvBatchDelete bucketName] else [])
      ++ [EvDeleteBucket bucketName] ∧
    final (Delete bucketName deleteObjects b) = (DeleteBucket bucketName b1).2 ∧
    ok_or_absent (DeleteBucket bucketName b1).1.
Proof.
  rewrite Delete_unfold. cbv zeta.
  assert (Hok : ∀ r, match r with Some e => handleDeleteError e | None => Returns None end
                     = Returns None → ok_or_absent r).
  { intros [e|] Hr e' [= <-]. unfold handleDeleteError in Hr.
    apply isNoSuchBucketError_true_inv.
    by destruct (isNoSuchBucketError e) as [[|]|]. }
  destruct deleteObjects.
  - destruct is_s3_S3; [|intros Hd; discriminate Hd].
    destruct ((BatchDelete bucketName b).1) as [e|]; cbn.
    + destruct (handleDeleteError_cases e) as [->|[->|[reason ->]]]; cbn;
        [|intros Hd; discriminate Hd..].
      intros Hd. exists (BatchDelete bucketName b).2. repeat split. by apply Hok.
    + intros Hd. exists (BatchDelete bucketName b).2. repeat split. by apply Hok.
  - cbn. intros Hd. exists b. repeat split. by apply Hok.
Qed.

(** X7: an error that [Delete] returns is the very error the backend
    answered, to the batch deletion or to the bucket deletion: it is
    neither wrapped nor flattened. *)
Theorem Delete_error_is_the_backend_error (bucketName : string) (deleteObjects : bool)
    (b : B) (err : error) :
  value (Delete bucketName deleteObjects b) = Returns (Some err) →
  (deleteObjects = true ∧ (BatchDelete bucketName b).1 = Some err ∧
   events (Delete bucketName deleteObjects b) = [EvBatchDelete bucketName]) ∨
  (DeleteBucket bucketName (if deleteObjects then (BatchDelete bucketName b).2 else b)).1
  = Some err.
Proof.
  rewrite Delete_unfold. cbv zeta.
  assert (Hsame : ∀ r, match r with Some e => handleDeleteError e | None => Returns None end
                       = Returns (Some err) → r = Some err).
  { intros [e|] Hr; [|done]. destruct (handleDeleteError_cases e) as [He|[He|[reason He]]];
      rewrite He in Hr; congruence. }
  destruct deleteObjects.
  - destruct is_s3_S3; [|intros Hd; discriminate Hd].
    destruct ((BatchDelete bucketName b).1) as [e|] eqn:Hbatch; cbn.
    + destruct (handleDeleteError_cases e) as [He|[He|[reason He]]]; rewrite He; cbn.
      * intros Hd. right. by apply Hsame.
      * intros [= ->]. by left.
      * done.
    + intros Hd. right. by apply Hsame.
  - cbn. intros Hd. right. by apply Hsame.
Qed.

(** X8: when the batch deletion, run on the client of the SDK, fails for
    another reason than an absent bucket, [Delete] returns that error and
    does not call [DeleteBucket]: the bucket is kept. *)
Theorem Delete_keeps_bucket_when_contents_fail (bucketName : string) (b : B) (err : error) :
  is_s3_S3 = true →
  (BatchDelete bucketName b).1 = Some err →
  isNoSuchBucketError err = Returns false →
  value (Delete bucketName true b) = Returns (Some err) ∧
  events (Delete bucketName true b) = [EvBatchDelete bucketName] ∧
  count is_DeleteBucket (events (Delete bucketName true b)) = 0.
Proof.
  intros Hsdk Hbatch Hfalse. rewrite Delete_unfold. cbv zeta. rewrite Hsdk, Hbatch.
  unfold handleDeleteError. rewrite Hfalse. cbn. repeat split.
Qed.

(** X9: [Delete] does not panic when the deletion of the objects is not
    asked for, or is run on the client of the SDK, as long as no answer it
    classifies is a batch error that lists no cause; the batch deletion of
    [s3manager] builds a batch error from the failures it met, at least
    one. *)
Theorem Delete_does_not_panic (bucketName : string) (deleteObjects : bool) (b : B) :
  (deleteObjects = true →
   is_s3_S3 = true ∧ ∀ e, (BatchDelete bucketName b).1 = Some e → ¬ empty_batch e) →
  (∀ e, (DeleteBucket bucketName (if deleteObjects then (BatchDelete bucketName b).2 else b)).1
        = Some e → ¬ empty_batch e) →
  ∃ r, value (Delete bucketName deleteObjects b) = Returns r.
Proof.
  intros Hcontents Hbucket. rewrite Delete_unfold. cbv zeta.
  destruct (handleDeleteError_returns _ Hbucket) as [r' Hr'].
  destruct deleteObjects.
  - destruct (Hcontents eq_refl) as [-> Hbatch].
    destruct (handleDeleteError_returns _ Hbatch) as [[e|] Hr]; rewrite Hr; cbn.
    + by eexists.
    + exists r'. exact Hr'.
  - cbn. exists r'. exact Hr'.
Qed.

End DeleteFurther.

(** ** The reconciler and the policy applier, further *)

Section ReconcilerFurther.
Context {L : GoLibs} {B : Type} {Client : S3Client B}.

(** X10: one probe is one [GetPublicAccessBlock] call, and its answer is
    read as follows: an [awserr.Error] of code
    NoSuchPublicAccessBlockConfiguration confirms the deletion; an
    [awserr.Error] of another code is returned as the error; a success, and
    also an error that is no [awserr.Error], count as not yet confirmed,
    without an error. *)
Theorem checkIsPublicAccessBlockDeleted_reading (bucketName : string) (b : B) :
  let r := checkIsPublicAccessBlockDeleted bucketName b in
  let answer := (GetPublicAccessBlock bucketName b).1 in
  events r = [EvGetPublicAccessBlock bucketName] ∧
  final r = (GetPublicAccessBlock bucketName b).2 ∧
  (value r = (true, None) ↔
     ∃ e message, answer = Some e ∧
       as_awserr e = Some ("NoSuchPublicAccessBlockConfiguration", message)) ∧
  (∀ e, (value r).2 = Some e ↔
     answer = Some e ∧ (value r).1 = false ∧
     ∃ code message, as_awserr e = Some (code, message) ∧
                     code ≠ "NoSuchPublicAccessBlockConfiguration") ∧
  (value r = (false, None) ↔
     answer = None ∨ ∃ e, answer = Some e ∧ as_awserr e = None).
Proof.
  unfold checkIsPublicAccessBlockDeleted, mbind, M_bind, s3svc_GetPublicAccessBlock, invoke.
  destruct (GetPublicAccessBlock bucketName b) as [[e|] b']; cbn.
  - destruct (as_awserr e) as [[code message]|] eqn:Haws.
    + destruct (String.eqb_spec code "NoSuchPublicAccessBlockConfiguration") as [->|Hne]; cbn.
      * split_and!; try done.
        -- split; [intros _; by exists e, message|done].
        -- intros e'. split; [done|]. intros (_ & Hfalse & _). discriminate Hfalse.
        -- split; [done|]. intros [?|(e' & [= <-] & ?)]; congruence.
      * split_and!; try done.
        -- split; [done|]. intros (e' & message' & [= <-] & Heq). congruence.
        -- intros e'. split.
           ++ intros [= <-]. split_and!; try done. by exists code, message.
           ++ by intros ([= <-] & _).
        -- split; [done|]. intros [?|(e' & [= <-] & ?)]; congruence.
    + split_and!; try done.
      * split; [done|]. intros (e' & message' & [= <-] & Heq). congruence.
      * intros e'. split; [done|]. intros ([= <-] & _ & code & message & Heq & _). congruence.
      * split; [|done]. intros _. right. by exists e.
  - split_and!; try done.
    + split; [done|]. by intros (e' & message' & ? & _).
    + intros e'. split; [done|]. by intros (? & _).
    + split; [|done]. intros _. by left.
Qed.

Lemma probe_not_awserr (bucketName : string) (b : B) :
  (∀ e, (GetPublicAccessBlock bucketName b).1 = Some e → as_awserr e = None) →
  value (checkIsPublicAccessBlockDeleted bucketName b) = (false, None).
Proof.
  unfold checkIsPublicAccessBlockDeleted, mbind, M_bind, s3svc_GetPublicAccessBlock, invoke.
  destruct (GetPublicAccessBlock bucketName b) as [[e|] b']; cbn; [|done].
  intros Hplain. by rewrite (Hplain e eq_refl).
Qed.

(** X11: the reconciler calls the backend only for a policy that parses to
    exactly one statement, which is the public-read statement: for an empty
    policy, a policy that does not parse, no statement, several statements
    or another statement, its trace is empty. *)
Theorem checkDeletePublicAccessBlock_acts_only_on_public_read (bucketDetails : BucketDetails)
    (bucketName : string) (b : B) :
  events (checkDeletePublicAccessBlock bucketDetails bucketName b) ≠ [] →
  Policy bucketDetails ≠ "" ∧
  ∃ policy statement,
    json_Unmarshal_policy (Policy bucketDetails) = inr policy ∧
    Statement policy = [statement] ∧
    public_read statement.
Proof.
  unfold checkDeletePublicAccessBlock.
  destruct (String.eqb_spec (Policy bucketDetails) "") as [|Hne]; [done|].
  destruct (json_Unmarshal_policy (Policy bucketDetails)) as [err|policy]; [done|].
  destruct (Nat.ltb_spec 1 (length (Statement policy))) as [|Hlen]; [done|].
  destruct (existsb matches_publicAccessPolicy (Statement policy)) eqn:Hmatch; [|done].
  intros _. split; [done|].
  destruct (Statement policy) as [|statement [|second statements]] eqn:Hst;
    [done| |cbn in Hlen; lia].
  exists policy, statement. split; [done|]. split; [done|].
  cbn in Hmatch. rewrite orb_false_r in Hmatch.
  by apply matches_publicAccessPolicy_spec.
Qed.

(** X12: when the deletion of the access block fails, the reconciler
    returns that error as it is and does not probe. *)
Theorem checkDeletePublicAccessBlock_deletion_failure `{!GoLibsLaws L}
    (bucketDetails : BucketDetails) (bucketName : string) (policy : bucketPolicy)
    (statement : bucketPolicyStatement) (b b1 : B) (err : error) :
  json_Unmarshal_policy (Policy bucketDetails) = inr policy →
  Statement policy = [statement] →
  public_read statement →
  DeletePublicAccessBlock bucketName b = (Some err, b1) →
  checkDeletePublicAccessBlock bucketDetails bucketName b
  = (Some err, b1, [EvDeletePublicAccessBlock bucketName]).
Proof.
  intros Hparse Hst Hpub Hdel. unfold checkDeletePublicAccessBlock.
  rewrite (Policy_parsed_nonempty _ _ Hparse), Hparse, Hst.
  destruct (Nat.ltb_spec 1 (length [statement])); [cbn in *; lia|].
  cbn [existsb]. apply matches_publicAccessPolicy_spec in Hpub. rewrite Hpub.
  cbn [orb]. unfold mbind, M_bind, s3svc_DeletePublicAccessBlock, invoke.
  by rewrite Hdel.
Qed.

(** X13: probes that fail with an error that is no [awserr.Error] do not
    fail the reconciler: when every probe fails so, it probes 11 times,
    sleeps 10 times and returns nil. *)
Theorem checkDeletePublicAccessBlock_swallows_probe_errors `{!GoLibsLaws L}
    (bucketDetails : BucketDetails) (bucketName : string) (policy : bucketPolicy)
    (statement : bucketPolicyStatement) (b b1 : B) :
  json_Unmarshal_policy (Policy bucketDetails) = inr policy →
  Statement policy = [statement] →
  public_read statement →
  DeletePublicAccessBlock bucketName b = (None, b1) →
  (∀ b0, ∃ e, (GetPublicAccessBlock bucketName b0).1 = Some e ∧ as_awserr e = None) →
  let r := checkDeletePublicAccessBlock bucketDetails bucketName b in
  value r = None ∧
  events r = EvDeletePublicAccessBlock bucketName :: EvGetPublicAccessBlock bucketName
               :: probe_rounds bucketName 10.
Proof.
  intros Hparse Hst Hpub Hdel Hprobe r. subst r.
  assert (Hall : ∀ b0, value (checkIsPublicAccessBlockDeleted bucketName b0) = (false, None)).
  { intros b0. apply probe_not_awserr. intros e He.
    destruct (Hprobe b0) as (e' & He' & Hplain). congruence. }
  destruct (checkDeletePublicAccessBlock_poll bucketDetails bucketName policy statement b b1
              Hparse Hst Hpub Hdel) as (retries & Hle & Hev & _ & Hlast).
  assert (Hi : ∀ i, (Nat.iter i (probe_again bucketName)
                       (checkIsPublicAccessBlockDeleted bucketName b1).1).1 = (false, None)).
  { intros [|i]; [apply Hall|]. cbn [Nat.iter nat_rect]. unfold Nat.iter. cbn [nat_rect].
    unfold probe_again at 1. apply Hall. }
  rewrite Hi in Hlast. destruct Hlast as [[? _]|[(d & e & ? & _)|(_ & -> & Hv)]];
    [discriminate..|].
  by rewrite Hev.
Qed.

(** The events of the reconciler are deletion calls, probes and sleeps of
    one second, all on [bucketName]. *)
Lemma checkDeletePublicAccessBlock_event_kinds (bucketDetails : BucketDetails)
    (bucketName : string) (b : B) :
  Forall (λ e, e = EvDeletePublicAccessBlock bucketName ∨
               e = EvGetPublicAccessBlock bucketName ∨ e = EvSleep 1)
    (events (checkDeletePublicAccessBlock bucketDetails bucketName b)).
Proof.
  assert (Hrounds : ∀ k, Forall (λ e, e = EvDeletePublicAccessBlock bucketName ∨
                                      e = EvGetPublicAccessBlock bucketName ∨ e = EvSleep 1)
                           (probe_rounds bucketName k)).
  { induction k as [|k IH]; [constructor|]. rewrite probe_rounds_S.
    constructor; [auto|]. constructor; [auto|exact IH]. }
  destruct (checkDeletePublicAccessBlock_events bucketDetails bucketName b)
    as [->|[->|(k & Hk & ->)]].
  - constructor.
  - constructor; [auto|constructor].
  - constructor; [auto|]. constructor; [auto|apply Hrounds].
Qed.

(** X14: in every trace of the reconciler the deletion call, if any, is
    the first event and the only deletion; probes are made only after it;
    and there is one sleep less than there are probes, every sleep being of
    one second. *)
Theorem checkDeletePublicAccessBlock_trace (bucketDetails : BucketDetails)
    (bucketName : string) (b : B) :
  let t := events (checkDeletePublicAccessBlock bucketDetails bucketName b) in
  Forall (λ e, e = EvDeletePublicAccessBlock bucketName ∨
               e = EvGetPublicAccessBlock bucketName ∨ e = EvSleep 1) t ∧
  count is_DeletePublicAccessBlock t ≤ 1 ∧
  (0 < length t → head t = Some (EvDeletePublicAccessBlock bucketName)) ∧
  (count is_GetPublicAccessBlock t = 0 ∧ count is_Sleep t = 0 ∨
   count is_GetPublicAccessBlock t = S (count is_Sleep t)).
Proof.
  cbv zeta. split; [apply checkDeletePublicAccessBlock_event_kinds|].
  destruct (checkDeletePublicAccessBlock_events bucketDetails bucketName b)
    as [->|[->|(k & Hk & ->)]].
  - split_and!; [rewrite count_nil; lia|cbn; lia|left; by rewrite !count_nil].
  - split_and!; [rewrite count_cons, count_nil; cbn; lia|done|].
    left. by rewrite !count_cons, !count_nil.
  - destruct (count_probe_rounds bucketName k) as (Hg & Hs & Hd & _).
    split_and!.
    + rewrite !count_cons, Hd. cbn. lia.
    + done.
    + right. rewrite !count_cons, Hg, Hs. done.
Qed.

(** The events of the policy applier, whatever the policy and the
    backend. *)
Lemma putBucketPolicyWithRetries_events (bucketDetails : BucketDetails)
    (bucketName : string) (b : B) :
  ∃ calls policy, calls ≤ 11 ∧
    events (putBucketPolicyWithRetries bucketDetails bucketName b)
    = replicate calls (EvPutBucketPolicy bucketName policy).
Proof.
  unfold putBucketPolicyWithRetries.
  destruct (_ =? _); [exists 0, ""; split; [lia|done]|].
  destruct (template_Parse _) as [e|tmpl]; [exists 0, ""; split; [lia|done]|].
  destruct (template_Execute _ _) as [e|policy]; [exists 0, ""; split; [lia|done]|].
  change (BucketName (with_BucketName bucketName bucketDetails)) with bucketName.
  unfold mbind, M_bind, s3svc_PutBucketPolicy, invoke.
  destruct (PutBucketPolicy bucketName policy b) as [err1 b1]. cbv beta iota zeta.
  destruct (putPolicy_loop_spec bucketName policy err1 0 b1) as (n & Hn & Hev & _).
  exists (S n), policy. change maxRetries with 10 in Hn. split; [lia|].
  by rewrite events_preceded_by, Hev.
Qed.

(** X15: the policy applier calls [PutBucketPolicy] only for a non-empty
    policy that parses and executes as a template, and always on
    [bucketName] with the rendered text; when parsing or executing fails it
    returns that error without any call. *)
Theorem putBucketPolicyWithRetries_only_rendered (bucketDetails : BucketDetails)
    (bucketName : string) (b : B) :
  let r := putBucketPolicyWithRetries bucketDetails bucketName b in
  (events r ≠ [] →
     Policy bucketDetails ≠ "" ∧
     ∃ tmpl policy,
       template_Parse (Policy bucketDetails) = inr tmpl ∧
       template_Execute tmpl (with_BucketName bucketName bucketDetails) = inr policy ∧
       Forall (λ e, e = EvPutBucketPolicy bucketName policy) (events r)) ∧
  (Policy bucketDetails ≠ "" →
   ∀ err, template_Parse (Policy bucketDetails) = inl err → r = (Some err, b, [])) ∧
  (Policy bucketDetails ≠ "" →
   ∀ tmpl err,
     template_Parse (Policy bucketDetails) = inr tmpl →
     template_Execute tmpl (with_BucketName bucketName bucketDetails) = inl err →
     r = (Some err, b, [])).
Proof.
  unfold putBucketPolicyWithRetries. cbv zeta.
  change (Policy (with_BucketName bucketName bucketDetails)) with (Policy bucketDetails).
  change (BucketName (with_BucketName bucketName bucketDetails)) with bucketName.
  destruct (Nat.eqb_spec (String.length (Policy bucketDetails)) 0) as [Hlen|Hlen].
  { assert (Policy bucketDetails = "") as Hempty
      by (destruct (Policy bucketDetails); [done|discriminate]).
    split_and!; [done|by intros Hne|by intros Hne]. }
  assert (Policy bucketDetails ≠ "") as Hne by (by intros Heq; rewrite Heq in Hlen).
  destruct (template_Parse (Policy bucketDetails)) as [e|tmpl].
  { split_and!; [done|by intros _ err [= ->]|by intros _ tmpl err].  }
  destruct (template_Execute tmpl (with_BucketName bucketName bucketDetails))
    as [e|policy] eqn:Hexec.
  { split_and!; [done|by intros _ err|].
    intros _ tmpl' err [= <-] Herr. rewrite Hexec in Herr. by injection Herr as ->. }
  split_and!; [|by intros _ err|].
  2: { intros _ tmpl' err [= <-] Herr. rewrite Hexec in Herr. discriminate Herr. }
  intros _. split; [done|]. exists tmpl, policy. split; [done|]. split; [done|].
  unfold mbind, M_bind, s3svc_PutBucketPolicy, invoke.
  destruct (PutBucketPolicy bucketName policy b) as [err1 b1]. cbv beta iota zeta.
  rewrite events_preceded_by. apply Forall_app. split; [by repeat constructor|].
  apply putPolicy_loop_only_puts.
Qed.

End ReconcilerFurther.

(** ** Create, further *)

Section CreateFurther.
Context {L : GoLibs} {B : Type} {Client : S3Client B}.

(** The trace of [Create]: the creation call, the tagging and encryption
    calls, then the traces of the two reconciliation procedures. *)
Lemma Create_structure (bucketName : string) (bucketDetails : BucketDetails) (b : B) :
  ∃ prefix tail,
    events (Create bucketName bucketDetails b)
    = EvCreateBucket bucketName (ObjectOwnership bucketDetails) :: prefix ++ tail ∧
    (prefix = [] ∨
     prefix = [EvPutBucketTagging bucketName (map_to_list (Tags bucketDetails))] ∨
     ∃ config,
       Encryption bucketDetails ≠ "" ∧
       json_Unmarshal_encryption (Encryption bucketDetails) = inr config ∧
       prefix = [EvPutBucketTagging bucketName (map_to_list (Tags bucketDetails));
                 EvPutBucketEncryption bucketName config]) ∧
    (tail = [] ∨
     ∃ b3,
       let r1 := checkDeletePublicAccessBlock bucketDetails bucketName b3 in
       tail = events r1
              ++ match value r1 with
                 | Some _ => []
                 | None => events (putBucketPolicyWithRetries bucketDetails bucketName (final r1))
                 end).
Proof.
  unfold Create, mbind, M_bind, s3svc_CreateBucket, s3svc_PutBucketTagging,
    s3svc_PutBucketEncryption, invoke, mret, M_ret.
  destruct (CreateBucket bucketName (ObjectOwnership bucketDetails) b)
    as [[e|Location] b1].
  { exists [], []. split_and!; [done|by left|by left]. }
  cbv beta iota zeta.
  destruct (PutBucketTagging bucketName (map_to_list (Tags bucketDetails)) b1)
    as [[e|] b2].
  { exists [EvPutBucketTagging bucketName (map_to_list (Tags bucketDetails))], [].
    split_and!; [done|by right; left|by left]. }
  cbv beta iota zeta.
  destruct (Nat.ltb_spec 0 (String.length (Encryption bucketDetails))) as [Hlen|Hlen].
  + assert (Encryption bucketDetails ≠ "") as Hne
      by (intros Heq; rewrite Heq in Hlen; cbn in Hlen; lia).
    destruct (json_Unmarshal_encryption (Encryption bucketDetails)) as [e|config] eqn:Hjson.
    { exists [EvPutBucketTagging bucketName (map_to_list (Tags bucketDetails))], [].
      split_and!; [done|by right; left|by left]. }
    destruct (PutBucketEncryption bucketName config b2) as [[e|] b3].
    { exists [EvPutBucketTagging bucketName (map_to_list (Tags bucketDetails));
              EvPutBucketEncryption bucketName config], [].
      split_and!; [done| |by left]. right; right. by exists config. }
    exists [EvPutBucketTagging bucketName (map_to_list (Tags bucketDetails));
            EvPutBucketEncryption bucketName config],
      (events (checkDeletePublicAccessBlock bucketDetails bucketName b3)
       ++ match value (checkDeletePublicAccessBlock bucketDetails bucketName b3) with
          | Some _ => []
          | None => events (putBucketPolicyWithRetries bucketDetails bucketName
                              (final (checkDeletePublicAccessBlock bucketDetails bucketName b3)))
          end).
    split_and!; [|right; right; by exists config|right; by exists b3].
    unfold preceded_by, value, events, final. cbn [fst snd fmap option_fmap option_map].
    destruct (checkDeletePublicAccessBlock bucketDetails bucketName b3) as [[[e1|] bf1] t1];
      cbn [fst snd]; [by rewrite ?app_nil_r|].
    destruct (putBucketPolicyWithRetries bucketDetails bucketName bf1) as [[[e2|] bf2] t2];
      cbn [fst snd]; by rewrite ?app_nil_r.
  + exists [EvPutBucketTagging bucketName (map_to_list (Tags bucketDetails))],
      (events (checkDeletePublicAccessBlock bucketDetails bucketName b2)
       ++ match value (checkDeletePublicAccessBlock bucketDetails bucketName b2) with
          | Some _ => []
          | None => events (putBucketPolicyWithRetries bucketDetails bucketName
                              (final (checkDeletePublicAccessBlock bucketDetails bucketName b2)))
          end).
    split_and!; [|by right; left|right; by exists b2].
    unfold preceded_by, value, events, final. cbn [fst snd].
    destruct (checkDeletePublicAccessBlock bucketDetails bucketName b2) as [[[e1|] bf1] t1];
      cbn [fst snd]; [by rewrite ?app_nil_r|].
    destruct (putBucketPolicyWithRetries bucketDetails bucketName bf1) as [[[e2|] bf2] t2];
      cbn [fst snd]; by rewrite ?app_nil_r.
Qed.

Lemma count_replicate_other (p : event → bool) (e : event) (n : nat) :
  p e = false → count p (replicate n e) = 0.
Proof.
  intros He. apply count_zero_Forall. by apply Forall_replicate.
Qed.

Lemma count_Forall_eq (p : event → bool) (t : list event) (P : event → Prop) :
  (∀ e, P e → p e = false) → Forall P t → count p t = 0.
Proof.
  intros Hp Ht. apply count_zero_Forall. eapply Forall_impl; [exact Ht|exact Hp].
Qed.

(** X16: when the creation call fails, [Create] makes no other call and
    returns the empty location with the error, flattened to a plain error
    of text code, colon, blank, message when it is an [awserr.Error]. *)
Theorem Create_creation_failure (bucketName : string) (bucketDetails : BucketDetails)
    (b b1 : B) (err : error) :
  CreateBucket bucketName (ObjectOwnership bucketDetails) b = (inl err, b1) →
  Create bucketName bucketDetails b
  = ("", Some match as_awserr err with
              | Some (code, message) => PlainError (code +:+ ": " +:+ message)
              | None => err
              end,
     b1, [EvCreateBucket bucketName (ObjectOwnership bucketDetails)]).
Proof.
  intros Hcreate. unfold Create, mbind, M_bind, s3svc_CreateBucket, invoke.
  rewrite Hcreate. unfold flatten_error. by destruct (as_awserr err) as [[code message]|].
Qed.

(** X17: when tagging fails, [Create] returns the tagging error as it is,
    not flattened, after two calls: the bucket was created and is left in
    place, without encryption, access-block or policy call. *)
Theorem Create_tagging_failure (bucketName : string) (bucketDetails : BucketDetails)
    (b b1 b2 : B) (Location : option string) (err : error) :
  CreateBucket bucketName (ObjectOwnership bucketDetails) b = (inr Location, b1) →
  PutBucketTagging bucketName (map_to_list (Tags bucketDetails)) b1 = (Some err, b2) →
  Create bucketName bucketDetails b
  = ("", Some err, b2,
     [EvCreateBucket bucketName (ObjectOwnership bucketDetails);
      EvPutBucketTagging bucketName (map_to_list (Tags bucketDetails))]).
Proof.
  intros Hcreate Htag.
  unfold Create, mbind, M_bind, s3svc_CreateBucket, s3svc_PutBucketTagging, invoke.
  rewrite Hcreate. cbv beta iota zeta. by rewrite Htag.
Qed.

(** X18: [Create] calls [PutBucketEncryption] at most once, and only when
    [Encryption] is not empty and parses; the configuration it sends is the
    parsed one. *)
Theorem Create_encrypts_only_parsed (bucketName : string) (bucketDetails : BucketDetails)
    (b : B) :
  let t := events (Create bucketName bucketDetails b) in
  count is_PutBucketEncryption t ≤ 1 ∧
  (∀ bucket config, EvPutBucketEncryption bucket config ∈ t →
     bucket = bucketName ∧
     Encryption bucketDetails ≠ "" ∧
     json_Unmarshal_encryption (Encryption bucketDetails) = inr config).
Proof.
  cbv zeta.
  destruct (Create_structure bucketName bucketDetails b)
    as (prefix & tail & -> & Hprefix & Htail).
  assert (Htail_class : Forall (λ e, is_PutBucketEncryption e = false) tail).
  { destruct Htail as [->|(b3 & ->)]; [constructor|]. cbv zeta.
    apply Forall_app. split.
    - eapply Forall_impl; [apply checkDeletePublicAccessBlock_event_kinds|].
      by intros e [->|[->| ->]].
    - destruct (value _); [constructor|].
      destruct (putBucketPolicyWithRetries_events bucketDetails bucketName
                  (final (checkDeletePublicAccessBlock bucketDetails bucketName b3)))
        as (calls & policy & _ & ->).
      by apply Forall_replicate. }
  split.
  - rewrite count_cons, count_app, (count_zero_Forall _ tail) by done.
    destruct Hprefix as [->|[->|(config & _ & _ & ->)]];
      rewrite ?count_cons, ?count_nil; cbn; lia.
  - intros bucket config Hin.
    apply elem_of_cons in Hin as [Hin|Hin]; [discriminate|].
    apply elem_of_app in Hin as [Hin|Hin].
    + destruct Hprefix as [->|[->|(config' & Hne & Hjson & ->)]].
      * by apply elem_of_nil in Hin.
      * apply list_elem_of_singleton in Hin. discriminate.
      * apply elem_of_cons in Hin as [Hin|Hin]; [discriminate|].
        apply list_elem_of_singleton in Hin. by injection Hin as -> ->.
    + rewrite Forall_forall in Htail_class. by specialize (Htail_class _ Hin).
Qed.

Lemma length_probe_rounds (bucketName : string) (k : nat) :
  length (probe_rounds bucketName k) = 2 * k.
Proof. induction k as [|k IH]; [done|]. rewrite probe_rounds_S. cbn [length]. lia. Qed.

Lemma checkDeletePublicAccessBlock_counts (bucketDetails : BucketDetails)
    (bucketName : string) (b : B) :
  let t := events (checkDeletePublicAccessBlock bucketDetails bucketName b) in
  count is_DeletePublicAccessBlock t ≤ 1 ∧
  count is_GetPublicAccessBlock t ≤ 11 ∧
  count is_Sleep t ≤ 10 ∧
  length t ≤ 22.
Proof.
  cbv zeta.
  destruct (checkDeletePublicAccessBlock_events bucketDetails bucketName b)
    as [->|[->|(k & Hk & ->)]].
  - rewrite !count_nil. cbn. lia.
  - rewrite !count_cons, !count_nil. cbn. lia.
  - destruct (count_probe_rounds bucketName k) as (Hg & Hs & Hd & _).
    rewrite !count_cons, Hg, Hs, Hd. cbn [length]. rewrite length_probe_rounds.
    change maxRetries with 10 in Hk. cbn. lia.
Qed.

(** X19: the calls of [Create] are bounded and never tear down: the
    creation call comes first and is the only one; there are at most one
    tagging call, one deletion of the access block, 11 probes, 10 sleeps and
    11 policy calls, 36 events in all; and there is no location lookup, no
    bucket deletion and no batch deletion. *)
Theorem Create_calls_are_bounded (bucketName : string) (bucketDetails : BucketDetails)
    (b : B) :
  let t := events (Create bucketName bucketDetails b) in
  head t = Some (EvCreateBucket bucketName (ObjectOwnership bucketDetails)) ∧
  count is_CreateBucket t = 1 ∧
  count is_PutBucketTagging t ≤ 1 ∧
  count is_DeletePublicAccessBlock t ≤ 1 ∧
  count is_GetPublicAccessBlock t ≤ 11 ∧
  count is_Sleep t ≤ 10 ∧
  count is_PutBucketPolicy t ≤ 11 ∧
  count is_GetBucketLocation t = 0 ∧
  count is_DeleteBucket t = 0 ∧
  count is_BatchDelete t = 0 ∧
  length t ≤ 36.
Proof.
  cbv zeta.
  destruct (Create_structure bucketName bucketDetails b)
    as (prefix & tail & -> & Hprefix & Htail).
  assert (Hp : count is_CreateBucket prefix = 0 ∧ count is_PutBucketTagging prefix ≤ 1 ∧
               count is_DeletePublicAccessBlock prefix = 0 ∧
               count is_GetPublicAccessBlock prefix = 0 ∧ count is_Sleep prefix = 0 ∧
               count is_PutBucketPolicy prefix = 0 ∧ count is_GetBucketLocation prefix = 0 ∧
               count is_DeleteBucket prefix = 0 ∧ count is_BatchDelete prefix = 0 ∧
               length prefix ≤ 2).
  { destruct Hprefix as [->|[->|(config & _ & _ & ->)]];
      rewrite ?count_cons, ?count_nil; cbn; lia. }
  assert (Ht : count is_CreateBucket tail = 0 ∧ count is_PutBucketTagging tail = 0 ∧
               count is_DeletePublicAccessBlock tail ≤ 1 ∧
               count is_GetPublicAccessBlock tail ≤ 11 ∧ count is_Sleep tail ≤ 10 ∧
               count is_PutBucketPolicy tail ≤ 11 ∧ count is_GetBucketLocation tail = 0 ∧
               count is_DeleteBucket tail = 0 ∧ count is_BatchDelete tail = 0 ∧
               length tail ≤ 33).
  { destruct Htail as [->|(b3 & ->)]; [rewrite !count_nil; cbn; lia|]. cbv zeta.
    pose proof (checkDeletePublicAccessBlock_event_kinds bucketDetails bucketName b3) as Hk.
    destruct (checkDeletePublicAccessBlock_counts bucketDetails bucketName b3)
      as (Hd & Hg & Hs & Hl).
    assert (Hother : ∀ p : event → bool,
              p (EvDeletePublicAccessBlock bucketName) = false →
              p (EvGetPublicAccessBlock bucketName) = false →
              p (EvSleep 1) = false →
              count p (events (checkDeletePublicAccessBlock bucketDetails bucketName b3)) = 0).
    { intros p H1 H2 H3. eapply count_Forall_eq; [|exact Hk]. by intros e [->|[->| ->]]. }
    set (t2 := match value (checkDeletePublicAccessBlock bucketDetails bucketName b3) with
               | Some _ => []
               | None => events (putBucketPolicyWithRetries bucketDetails bucketName
                                   (final (checkDeletePublicAccessBlock bucketDetails
                                             bucketName b3)))
               end).
    assert (∃ calls policy, calls ≤ 11 ∧ t2 = replicate calls (EvPutBucketPolicy bucketName policy))
      as (calls & policy & Hcalls & ->).
    { subst t2. destruct (value _); [exists 0, ""; split; [lia|done]|].
      apply putBucketPolicyWithRetries_events. }
    rewrite !count_app, length_app, length_replicate, count_replicate_PutBucketPolicy.
    rewrite (Hother is_CreateBucket), (Hother is_PutBucketTagging),
      (Hother is_PutBucketPolicy), (Hother is_GetBucketLocation), (Hother is_DeleteBucket),
      (Hother is_BatchDelete) by done.
    rewrite !count_replicate_other by done. lia. }
  split; [done|].
  rewrite !count_cons, !count_app, length_cons, length_app.
  cbn [is_CreateBucket is_PutBucketTagging is_DeletePublicAccessBlock is_GetPublicAccessBlock
       is_Sleep is_PutBucketPolicy is_GetBucketLocation is_DeleteBucket is_BatchDelete].
  lia.
Qed.

(** X20: every call of [Create] is made on [bucketName], whatever the
    [BucketName] field of the [BucketDetails] says. *)
Theorem Create_calls_on_bucketName (bucketName : string) (bucketDetails : BucketDetails)
    (b : B) :
  on_bucket bucketName (events (Create bucketName bucketDetails b)).
Proof.
  unfold on_bucket.
  destruct (Create_structure bucketName bucketDetails b)
    as (prefix & tail & -> & Hprefix & Htail).
  constructor; [by intros bucket [= <-]|]. apply Forall_app. split.
  - destruct Hprefix as [->|[->|(config & _ & _ & ->)]]; repeat constructor;
      by intros bucket [= <-].
  - destruct Htail as [->|(b3 & ->)]; [constructor|]. cbv zeta. apply Forall_app. split.
    + eapply Forall_impl; [apply checkDeletePublicAccessBlock_event_kinds|].
      intros e [->|[->| ->]] bucket; by intros [= <-].
    + destruct (value _); [constructor|].
      destruct (putBucketPolicyWithRetries_events bucketDetails bucketName
                  (final (checkDeletePublicAccessBlock bucketDetails bucketName b3)))
        as (calls & policy & _ & ->).
      apply Forall_replicate. by intros bucket [= <-].
Qed.

(** [Create] does not read the [BucketName] field of its [BucketDetails]:
    the template is executed with the field set to [bucketName]. *)
Lemma Create_ignores_BucketName_field (bucketName other : string)
    (bucketDetails : BucketDetails) (b : B) :
  Create bucketName (with_BucketName other bucketDetails) b
  = Create bucketName bucketDetails b.
Proof. reflexivity. Qed.

(** X21: [Create] returns either the empty location with an error, or no
    error with the location the creation call reported, the empty string
    when that location is nil. *)
Theorem Create_location_or_error (bucketName : string) (bucketDetails : BucketDetails)
    (b : B) :
  (∃ err, value (Create bucketName bucketDetails b) = ("", Some err)) ∨
  (∃ Location b1,
     CreateBucket bucketName (ObjectOwnership bucketDetails) b = (inr Location, b1) ∧
     value (Create bucketName bucketDetails b) = (default "" Location, None)).
Proof.
  destruct (Create_events bucketName bucketDetails b)
    as (rest & _ & [[_ [err Hv]]|(b3 & Location & Hprov)]); [left; by exists err|].
  destruct (Create_provisioned _ _ _ _ _ Hprov) as (rest' & _ & _ & ->).
  destruct Hprov as (b1 & b2 & Hcreate & _).
  destruct (value (checkDeletePublicAccessBlock _ _ _)) as [e|]; [left; by exists e|].
  destruct (value (putBucketPolicyWithRetries _ _ _)) as [e|]; [left; by exists e|].
  right. by exists Location, b1.
Qed.

(** X22: a bucket without a policy stays private: when creation, tagging
    and encryption succeed and [Policy] is empty, [Create] deletes no
    access block, probes nothing, puts no policy, and returns the location
    without an error. *)
Theorem Create_private_bucket (bucketName : string) (bucketDetails : BucketDetails)
    (b b3 : B) (Location : option string) :
  Policy bucketDetails = "" →
  provisioned bucketName bucketDetails b b3 Location →
  let r := Create bucketName bucketDetails b in
  value r = (default "" Location, None) ∧
  count is_DeletePublicAccessBlock (events r) = 0 ∧
  count is_GetPublicAccessBlock (events r) = 0 ∧
  count is_PutBucketPolicy (events r) = 0 ∧
  ∃ rest, events r = EvCreateBucket bucketName (ObjectOwnership bucketDetails) :: rest ∧
          Forall (λ e, is_PutBucketTagging e || is_PutBucketEncryption e = true) rest.
Proof.
  intros Hpolicy Hprov r. subst r.
  destruct (Create_provisioned _ _ _ _ _ Hprov) as (rest & Hrest & Hev & Hv).
  assert (Hcheck : checkDeletePublicAccessBlock bucketDetails bucketName b3 = (None, b3, [])).
  { unfold checkDeletePublicAccessBlock. by rewrite Hpolicy. }
  assert (Hput : putBucketPolicyWithRetries bucketDetails bucketName b3 = (None, b3, [])).
  { unfold putBucketPolicyWithRetries. by rewrite Hpolicy. }
  rewrite Hcheck in Hev, Hv. cbn in Hev, Hv. rewrite Hput in Hev, Hv. cbn in Hev, Hv.
  rewrite app_nil_r in Hev. rewrite Hev, Hv.
  split_and!; [done|..|by exists rest];
    rewrite count_cons; cbn; apply count_provisioning; try done; by intros [].
Qed.

(** The policy applier, when it succeeds on a non-empty policy. *)
Lemma putBucketPolicyWithRetries_success (bucketDetails : BucketDetails)
    (bucketName : string) (b : B) :
  value (putBucketPolicyWithRetries bucketDetails bucketName b) = None →
  Policy bucketDetails ≠ "" →
  ∃ tmpl policy n,
    template_Parse (Policy bucketDetails) = inr tmpl ∧
    template_Execute tmpl (with_BucketName bucketName bucketDetails) = inr policy ∧
    events (putBucketPolicyWithRetries bucketDetails bucketName b)
    = replicate (S n) (EvPutBucketPolicy bucketName policy).
Proof.
  intros Hv Hne.
  destruct (template_Parse (Policy bucketDetails)) as [e|tmpl] eqn:Hparse.
  { exfalso. revert Hv. unfold putBucketPolicyWithRetries. cbv zeta.
    change (Policy (with_BucketName bucketName bucketDetails)) with (Policy bucketDetails).
    rewrite Hparse.
    destruct (Nat.eqb_spec (String.length (Policy bucketDetails)) 0) as [Hlen|_]; [|done].
    destruct (Policy bucketDetails); [done|discriminate]. }
  destruct (template_Execute tmpl (with_BucketName bucketName bucketDetails))
    as [e|policy] eqn:Hexec.
  { exfalso. revert Hv. unfold putBucketPolicyWithRetries. cbv zeta.
    change (Policy (with_BucketName bucketName bucketDetails)) with (Policy bucketDetails).
    rewrite Hparse, Hexec.
    destruct (Nat.eqb_spec (String.length (Policy bucketDetails)) 0) as [Hlen|_]; [|done].
    destruct (Policy bucketDetails); [done|discriminate]. }
  rewrite (putBucketPolicyWithRetries_rendered _ _ _ _ b Hne Hparse Hexec).
  destruct (putPolicy_loop_spec bucketName policy (PutBucketPolicy bucketName policy b).1 0
              (PutBucketPolicy bucketName policy b).2) as (n & _ & Hev & _).
  exists tmpl, policy, n. split; [done|]. split; [done|].
  by rewrite events_preceded_by, Hev.
Qed.

(** X23: [Create] reports success for a bucket with a policy only after the
    policy was put: when it returns no error and [Policy] is not empty, the
    policy renders and the last call of the trace is the [PutBucketPolicy]
    of the rendered text on [bucketName]. *)
Theorem Create_success_puts_policy (bucketName : string) (bucketDetails : BucketDetails)
    (b : B) :
  (value (Create bucketName bucketDetails b)).2 = None →
  Policy bucketDetails ≠ "" →
  ∃ tmpl policy,
    template_Parse (Policy bucketDetails) = inr tmpl ∧
    template_Execute tmpl (with_BucketName bucketName bucketDetails) = inr policy ∧
    last (events (Create bucketName bucketDetails b))
    = Some (EvPutBucketPolicy bucketName policy).
Proof.
  intros Hv Hne.
  destruct (Create_events bucketName bucketDetails b)
    as (rest & _ & [[_ [err Herr]]|(b3 & Location & Hprov)]).
  { rewrite Herr in Hv. discriminate Hv. }
  destruct (Create_provisioned _ _ _ _ _ Hprov) as (rest' & _ & Hev & Hval).
  rewrite Hval in Hv. rewrite Hev.
  destruct (value (checkDeletePublicAccessBlock bucketDetails bucketName b3)) as [e|];
    [discriminate Hv|].
  destruct (value (putBucketPolicyWithRetries bucketDetails bucketName _)) as [e|] eqn:Hput;
    [discriminate Hv|].
  destruct (putBucketPolicyWithRetries_success _ _ _ Hput Hne)
    as (tmpl & policy & n & Hparse & Hexec & Hevp).
  exists tmpl, policy. split; [done|]. split; [done|].
  rewrite Hevp, replicate_S_end, !app_comm_cons, !app_assoc. apply last_snoc.
Qed.

(** X24: once the bucket is created, the second call of [Create] is the
    tagging call, also when there is no tag to set; and a tagging call of
    [Create] is on [bucketName] and carries the tags of the [BucketDetails]
    and no other, each key once with its value. *)
Theorem Create_sends_the_tags (bucketName : string) (bucketDetails : BucketDetails) (b : B) :
  let t := events (Create bucketName bucketDetails b) in
  (∀ b1 Location,
     CreateBucket bucketName (ObjectOwnership bucketDetails) b = (inr Location, b1) →
     ∃ tagSet, t !! 1 = Some (EvPutBucketTagging bucketName tagSet)) ∧
  (∀ bucket tagSet,
     EvPutBucketTagging bucket tagSet ∈ t →
     bucket = bucketName ∧
     NoDup tagSet.*1 ∧
     length tagSet = size (Tags bucketDetails) ∧
     ∀ key value, (key, value) ∈ tagSet ↔ Tags bucketDetails !! key = Some value).
Proof.
  cbv zeta. split.
  - intros b1 Location Hcreate. exists (map_to_list (Tags bucketDetails)).
    unfold Create, mbind, M_bind, s3svc_CreateBucket, s3svc_PutBucketTagging, invoke.
    rewrite Hcreate. cbv beta iota zeta.
    destruct (PutBucketTagging bucketName (map_to_list (Tags bucketDetails)) b1) as [r b2].
    cbv beta iota zeta. by rewrite !events_preceded_by.
  - destruct (Create_structure bucketName bucketDetails b)
      as (prefix & tail & -> & Hprefix & Htail).
    intros bucket tagSet Hin.
    assert (EvPutBucketTagging bucket tagSet
            = EvPutBucketTagging bucketName (map_to_list (Tags bucketDetails))) as [= -> ->].
    { apply elem_of_cons in Hin as [Hin|Hin]; [discriminate|].
      apply elem_of_app in Hin as [Hin|Hin].
      - destruct Hprefix as [->|[->|(config & _ & _ & ->)]].
        + by apply elem_of_nil in Hin.
        + by apply list_elem_of_singleton in Hin.
        + apply elem_of_cons in Hin as [Hin|Hin]; [done|].
          apply list_elem_of_singleton in Hin. discriminate.
      - exfalso. destruct Htail as [->|(b3 & ->)]; [by apply elem_of_nil in Hin|].
        cbv zeta in Hin. apply elem_of_app in Hin as [Hin|Hin].
        + pose proof (checkDeletePublicAccessBlock_event_kinds bucketDetails bucketName b3) as Hk.
          rewrite Forall_forall in Hk. by destruct (Hk _ Hin) as [?|[?|?]].
        + destruct (value _); [by apply elem_of_nil in Hin|].
          destruct (putBucketPolicyWithRetries_events bucketDetails bucketName
                      (final (checkDeletePublicAccessBlock bucketDetails bucketName b3)))
            as (calls & policy & _ & Heq).
          rewrite Heq in Hin. by apply elem_of_replicate_inv in Hin. }
    split_and!; [done|apply NoDup_fst_map_to_list|apply length_map_to_list|].
    intros key value. apply elem_of_map_to_list.
Qed.

End CreateFurther.

(** ** Witnesses of the further properties *)

Lemma isNoSuchBucketError_true_iff_witness :
  isNoSuchBucketError (Fake.batchError [mkS3ManagerError (Some Fake.noSuchBucket) None None])
  = Returns true.
Proof.
  apply (proj2 (isNoSuchBucketError_true_iff _)). apply absent_wrapped, absent_coded.
Defined.

Lemma isNoSuchBucketError_panics_iff_witness :
  empty_batch (Fake.batchError [mkS3ManagerError (Some (Fake.batchError [])) None None]).
Proof.
  apply (proj1 (isNoSuchBucketError_panics_iff _)). eexists. reflexivity.
Defined.

Lemma Describe_lookup_failure_witness :
  value (Describe (L := Fake.libs) (Client := Fake.client Fake.absent) "my-bucket" "aws" 0)
  = (BucketDetails_zero,
     Some (PlainError "NoSuchBucket: The specified bucket does not exist")).
Proof.
  exact (proj1 (Describe_lookup_failure (L := Fake.libs) (Client := Fake.client Fake.absent)
                  "my-bucket" "aws" 0 1 Fake.noSuchBucket eq_refl)).
Defined.

Lemma Describe_error_is_not_classified_witness :
  isNoSuchBucketError (PlainError "NoSuchBucket: The specified bucket does not exist")
  = Returns false.
Proof.
  exact (proj1 (proj2 (Describe_error_is_not_classified (L := Fake.libs)
                         (Client := Fake.client Fake.absent) "my-bucket" "aws" 0
                         (PlainError "NoSuchBucket: The specified bucket does not exist")
                         eq_refl))).
Defined.

Lemma Delete_calls_witness :
  Delete (L := Fake.libs) (Client := Fake.client Fake.happy) "my-bucket" true 0
  = (Panics "interface conversion: awss3.S3Client is not *s3.S3", 0, []) ∧
  events (Delete (L := Fake.libs) (Client := Fake.sdk_client Fake.happy) "my-bucket" true 0)
  = [EvBatchDelete "my-bucket"; EvDeleteBucket "my-bucket"].
Proof.
  split; [reflexivity|].
  destruct (proj2 (proj2 (Delete_calls (L := Fake.libs) (Client := Fake.sdk_client Fake.happy)
                            "my-bucket" true 0)) eq_refl eq_refl) as [Hev|Hev].
  - discriminate Hev.
  - exact Hev.
Defined.

Lemma Delete_success_after_DeleteBucket_witness :
  events (Delete (L := Fake.libs) (Client := Fake.sdk_client Fake.absent) "my-bucket" true 0)
  = [EvBatchDelete "my-bucket"; EvDeleteBucket "my-bucket"].
Proof.
  destruct (Delete_success_after_DeleteBucket (L := Fake.libs)
              (Client := Fake.sdk_client Fake.absent) "my-bucket" true 0 eq_refl)
    as (b1 & Hev & _).
  exact Hev.
Defined.

Lemma Delete_error_is_the_backend_error_witness :
  BatchDelete (S3Client := Fake.sdk_client (L := Fake.libs) Fake.batchFails) "my-bucket" 0
  = (Some (Fake.batchError Fake.twoCauses), 1).
Proof.
  destruct (Delete_error_is_the_backend_error (L := Fake.libs)
              (Client := Fake.sdk_client Fake.batchFails) "my-bucket" true 0
              (Fake.batchError Fake.twoCauses) eq_refl) as [(_ & Hbatch & _)|Hdelete].
  - reflexivity.
  - discriminate Hdelete.
Defined.

Lemma Delete_keeps_bucket_when_contents_fail_witness :
  count is_DeleteBucket
    (events (Delete (L := Fake.libs) (Client := Fake.sdk_client Fake.batchFails)
               "my-bucket" true 0))
  = 0.
Proof.
  exact (proj2 (proj2 (Delete_keeps_bucket_when_contents_fail (L := Fake.libs)
                         (Client := Fake.sdk_client Fake.batchFails) "my-bucket" 0
                         (Fake.batchError Fake.twoCauses) eq_refl eq_refl eq_refl))).
Defined.

Lemma Delete_does_not_panic_witness :
  ∃ r, value (Delete (L := Fake.libs) (Client := Fake.sdk_client Fake.batchFails)
                "my-bucket" true 0) = Returns r.
Proof.
  apply (Delete_does_not_panic (L := Fake.libs) (Client := Fake.sdk_client Fake.batchFails)
           "my-bucket" true 0).
  - intros _. split; [reflexivity|]. intros e [= <-] Hempty. inversion Hempty.
  - intros e He. discriminate He.
Defined.

Lemma checkDeletePublicAccessBlock_acts_only_on_public_read_witness :
  ∃ policy statement,
    @json_Unmarshal_policy Fake.libs (Policy Fake.publicReadDetails) = inr policy ∧
    Statement policy = [statement] ∧
    public_read statement.
Proof.
  refine (proj2 (checkDeletePublicAccessBlock_acts_only_on_public_read (L := Fake.libs)
                   (Client := Fake.client Fake.happy) Fake.publicReadDetails "my-bucket" 0 _)).
  vm_compute. discriminate.
Defined.

Lemma checkDeletePublicAccessBlock_deletion_failure_witness :
  checkDeletePublicAccessBlock (L := Fake.libs) (Client := Fake.client Fake.deletionFails)
    Fake.publicReadDetails "my-bucket" 0
  = (Some Fake.accessDenied, 1, [EvDeletePublicAccessBlock "my-bucket"]).
Proof.
  refine (@checkDeletePublicAccessBlock_deletion_failure Fake.libs nat
            (Fake.client Fake.deletionFails) Fake_libs_laws Fake.publicReadDetails "my-bucket"
            (Fake.policy_of [Fake.publicRead]) Fake.publicRead 0 1 Fake.accessDenied
            _ eq_refl _ eq_refl).
  - vm_compute. reflexivity.
  - repeat split.
Defined.

Lemma checkDeletePublicAccessBlock_swallows_probe_errors_witness :
  value (checkDeletePublicAccessBlock (L := Fake.libs) (Client := Fake.client Fake.probeTimesOut)
           Fake.publicReadDetails "my-bucket" 0) = None.
Proof.
  refine (proj1 (@checkDeletePublicAccessBlock_swallows_probe_errors Fake.libs nat
                   (Fake.client Fake.probeTimesOut) Fake_libs_laws Fake.publicReadDetails
                   "my-bucket" (Fake.policy_of [Fake.publicRead]) Fake.publicRead 0 1
                   _ eq_refl _ eq_refl _)).
  - vm_compute. reflexivity.
  - repeat split.
  - intros n. eexists. split; reflexivity.
Defined.

Lemma Create_creation_failure_witness :
  Create (L := Fake.libs) (Client := Fake.client Fake.createFails) "my-bucket"
    Fake.publicReadDetails 0
  = ("", Some (PlainError "BucketAlreadyExists: The requested bucket name is not available"),
     1, [EvCreateBucket "my-bucket" "BucketOwnerEnforced"]).
Proof.
  exact (Create_creation_failure (L := Fake.libs) (Client := Fake.client Fake.createFails)
           "my-bucket" Fake.publicReadDetails 0 1
           (AwsError "BucketAlreadyExists" "The requested bucket name is not available")
           eq_refl).
Defined.

Lemma Create_tagging_failure_witness :
  Create (L := Fake.libs) (Client := Fake.client Fake.taggingFails) "my-bucket"
    Fake.publicReadDetails 0
  = ("", Some Fake.accessDenied, 2,
     [EvCreateBucket "my-bucket" "BucketOwnerEnforced"; EvPutBucketTagging "my-bucket" []]).
Proof.
  exact (Create_tagging_failure (L := Fake.libs) (Client := Fake.client Fake.taggingFails)
           "my-bucket" Fake.publicReadDetails 0 1 2 (Some "/my-bucket") Fake.accessDenied
           eq_refl eq_refl).
Defined.

Lemma Create_private_bucket_witness :
  @json_Unmarshal_encryption Fake.libs (Encryption Fake.encryptedDetails) = inr ["AES256"] ∧
  value (Create (L := Fake.libs) (Client := Fake.client Fake.happy) "my-bucket"
           Fake.encryptedDetails 0) = ("/my-bucket", None).
Proof.
  split; [reflexivity|].
  refine (proj1 (Create_private_bucket (L := Fake.libs) (Client := Fake.client Fake.happy)
                   "my-bucket" Fake.encryptedDetails 0 3 (Some "/my-bucket") eq_refl _)).
  exists 1. exists 2. split; [reflexivity|]. split; [reflexivity|].
  exists ["AES256"]. split; reflexivity.
Defined.

Lemma Create_success_puts_policy_witness :
  ∃ policy,
    last (events (Create (L := Fake.libs) (Client := Fake.client (Fake.eventually 5))
                    "my-bucket" Fake.publicReadDetails 0))
    = Some (EvPutBucketPolicy "my-bucket" policy).
Proof.
  destruct (Create_success_puts_policy (L := Fake.libs)
              (Client := Fake.client (Fake.eventually 5)) "my-bucket"
              Fake.publicReadDetails 0) as (tmpl & policy & _ & _ & Hlast).
  - vm_compute. reflexivity.
  - vm_compute. discriminate.
  - by exists policy.
Defined.

Lemma Create_sends_the_tags_witness :
  ∃ tagSet,
    events (Create (L := Fake.libs) (Client := Fake.client Fake.happy) "my-bucket"
              Fake.taggedDetails 0) !! 1
    = Some (EvPutBucketTagging "my-bucket" tagSet) ∧
    length tagSet = 2 ∧
    ("env", "prod") ∈ tagSet ∧ ("team", "storage") ∈ tagSet.
Proof.
  destruct (Create_sends_the_tags (L := Fake.libs) (Client := Fake.client Fake.happy)
              "my-bucket" Fake.taggedDetails 0) as [Hsecond Hcarries].
  destruct (Hsecond 1 (Some "/my-bucket") eq_refl) as [tagSet Hlookup].
  destruct (Hcarries "my-bucket" tagSet (list_elem_of_lookup_2 _ _ _ Hlookup))
    as (_ & _ & Hlength & Htags).
  exists tagSet. split; [exact Hlookup|]. split; [exact Hlength|].
  split; apply Htags; reflexivity.
Defined.
